(** * Novelreader: the text parser, the stores and the chapter navigation

    A shallow embedding of [novel_reader.py] (class [NovelReaderApp]):
    [parse_novel_file], [load_novels], [on_novel_select],
    [load_chapter_list], [load_chapter], [on_chapter_change],
    [prev_chapter], [next_chapter], [load_settings], [save_settings],
    [load_reading_progress], [save_reading_progress] and [on_closing].

    A Python [str] is a sequence of Unicode code points, an [int] is
    unbounded, a [dict] keeps its insertion order, and an exception
    unwinds to the nearest handler that catches it.  The Tk widgets are
    left out of the state: what [load_chapter] inserts in the text widget
    is a function of the chapter, and the one value read back from a
    widget, the entry chosen in the chapter dropdown, is an argument. *)

From Stdlib Require Import List NArith ZArith Bool Lia.
From Stdlib Require Import Strings.String Strings.Byte Floats.PrimFloat.
Import ListNotations.

Set Implicit Arguments.
Set Warnings "-register-all".

(* ================================================================= *)
(** ** Python strings *)

(** A character is its code point; a [str] is the list of them. *)
Definition char := N.
Definition str := list char.

Definition LF : char := 10%N.
Definition CR : char := 13%N.

Definition char_eqb (a b : char) : bool := N.eqb a b.

Fixpoint str_eqb (a b : str) : bool :=
  match a, b with
  | [], [] => true
  | x :: a', y :: b' => char_eqb x y && str_eqb a' b'
  | _, _ => false
  end.

(** *** The utf-8 codec (strict, as [encoding='utf-8'] with the default
    [errors='strict']): overlong forms, surrogates and code points above
    U+10FFFF are decoding errors; surrogates cannot be encoded. *)

Definition is_cont (x : N) : bool := (128 <=? x)%N && (x <=? 191)%N.
Definition cont_bits (x : N) : N := (x - 128)%N.
Definition is_surrogate (c : N) : bool := (55296 <=? c)%N && (c <=? 57343)%N.

Definition consM (c : char) (r : option str) : option str :=
  match r with Some s => Some (c :: s) | None => None end.

Fixpoint utf8_decode (bs : list byte) : option str :=
  match bs with
  | [] => Some []
  | b0 :: r0 =>
    let x0 := Byte.to_N b0 in
    if (x0 <? 128)%N then consM x0 (utf8_decode r0)
    else match r0 with
    | [] => None
    | b1 :: r1 =>
      let x1 := Byte.to_N b1 in
      if negb (is_cont x1) then None
      else if (192 <=? x0)%N && (x0 <=? 223)%N then
        let c := ((x0 - 192) * 64 + cont_bits x1)%N in
        if (128 <=? c)%N then consM c (utf8_decode r1) else None
      else match r1 with
      | [] => None
      | b2 :: r2 =>
        let x2 := Byte.to_N b2 in
        if negb (is_cont x2) then None
        else if (224 <=? x0)%N && (x0 <=? 239)%N then
          let c := ((x0 - 224) * 4096 + cont_bits x1 * 64 + cont_bits x2)%N in
          if (2048 <=? c)%N && negb (is_surrogate c)
          then consM c (utf8_decode r2) else None
        else match r2 with
        | [] => None
        | b3 :: r3 =>
          let x3 := Byte.to_N b3 in
          if negb (is_cont x3) then None
          else if (240 <=? x0)%N && (x0 <=? 247)%N then
            let c := ((x0 - 240) * 262144 + cont_bits x1 * 4096
                      + cont_bits x2 * 64 + cont_bits x3)%N in
            if (65536 <=? c)%N && (c <=? 1114111)%N
            then consM c (utf8_decode r3) else None
          else None
        end
      end
    end
  end.

Definition byte_of (n : N) : byte :=
  match Byte.of_N n with Some b => b | None => x00 end.

Definition utf8_encode_char (c : char) : option (list byte) :=
  if (c <? 128)%N then Some [byte_of c]
  else if (c <? 2048)%N then
    Some [byte_of (192 + c / 64); byte_of (128 + c mod 64)]
  else if is_surrogate c then None
  else if (c <? 65536)%N then
    Some [byte_of (224 + c / 4096); byte_of (128 + (c / 64) mod 64);
          byte_of (128 + c mod 64)]
  else if (c <=? 1114111)%N then
    Some [byte_of (240 + c / 262144); byte_of (128 + (c / 4096) mod 64);
          byte_of (128 + (c / 64) mod 64); byte_of (128 + c mod 64)]
  else None.

Fixpoint utf8_encode (s : str) : option (list byte) :=
  match s with
  | [] => Some []
  | c :: r =>
    match utf8_encode_char c, utf8_encode r with
    | Some b, Some bs => Some (b ++ bs)
    | _, _ => None
    end
  end.

(** A source literal, written in utf-8 in this file as in the Python file. *)
Definition u (s : string) : str :=
  match utf8_decode (list_byte_of_string s) with
  | Some t => t
  | None => []
  end.

(** *** [str] methods used by the reader *)

(** [ch.isspace()]: what [str.strip()] removes and what [\s] matches in a
    [str] pattern (Unicode 14 tables of CPython 3.11). *)
Definition is_space (c : char) : bool :=
  ((9 <=? c) && (c <=? 13) || (28 <=? c) && (c <=? 32)
   || (c =? 133) || (c =? 160) || (c =? 5760)
   || (8192 <=? c) && (c <=? 8202)
   || (c =? 8232) || (c =? 8233) || (c =? 8239) || (c =? 8287)
   || (c =? 12288))%N.

(** The code points of the digit zero of every decimal-digit block
    (category Nd); each is followed by its digits one to nine. *)
Definition decimal_zeros : list N :=
  [48; 1632; 1776; 1984; 2406; 2534; 2662; 2790; 2918; 3046; 3174; 3302;
   3430; 3558; 3664; 3792; 3872; 4160; 4240; 6112; 6160; 6470; 6608; 6784;
   6800; 6992; 7088; 7232; 7248; 42528; 43216; 43264; 43472; 43504; 43600;
   44016; 65296; 66720; 68912; 69734; 69872; 69942; 70096; 70384; 70736;
   70864; 71248; 71360; 71472; 71904; 72016; 72784; 73040; 73120; 92768;
   92864; 93008; 120782; 120792; 120802; 120812; 120822; 123200; 123632;
   125264; 130032]%N.

Fixpoint decimal_in (zeros : list N) (c : char) : option Z :=
  match zeros with
  | [] => None
  | z :: zs =>
    if ((z <=? c) && (c <? z + 10))%N then Some (Z.of_N (c - z))
    else decimal_in zs c
  end.

(** The decimal value of a character, [None] when it is not a decimal digit. *)
Definition decimal_value (c : char) : option Z := decimal_in decimal_zeros c.

Definition is_decimal (c : char) : bool :=
  match decimal_value c with Some _ => true | None => false end.

(** [s.split(sep)] for a one-character separator: never the empty list. *)
Fixpoint split (sep : char) (s : str) : list str :=
  match s with
  | [] => [[]]
  | c :: r =>
    if char_eqb c sep then [] :: split sep r
    else match split sep r with
         | l :: ls => (c :: l) :: ls
         | [] => [[c]]
         end
  end.

(** [s.startswith(prefix)] *)
Fixpoint startswith (prefix s : str) : bool :=
  match prefix, s with
  | [], _ => true
  | p :: ps, c :: r => char_eqb p c && startswith ps r
  | _ :: _, [] => false
  end.

(** [s.replace(old, new)]: every occurrence of [old], found left to right
    without overlap, becomes [new].  [skip] counts the characters of the
    occurrence just replaced that are still to be passed over. *)
Fixpoint replace_from (old new : str) (skip : nat) (s : str) : str :=
  match s with
  | [] => match old with [] => new | _ :: _ => [] end
  | c :: r =>
    match skip with
    | S k => replace_from old new k r
    | O =>
      if startswith old s
      then match old with
           | [] => new ++ c :: replace_from old new O r
           | _ :: old' => new ++ replace_from old new (List.length old') r
           end
      else c :: replace_from old new O r
    end
  end.

Definition replace (old new s : str) : str := replace_from old new 0 s.

Fixpoint lstrip (s : str) : str :=
  match s with
  | [] => []
  | c :: r => if is_space c then lstrip r else s
  end.

Definition rstrip (s : str) : str := rev (lstrip (rev s)).

(** [s.strip()] *)
Definition strip (s : str) : str := rstrip (lstrip s).

(** The characters of a string up to its first newline. *)
Fixpoint first_line (s : str) : str :=
  match s with
  | [] => []
  | c :: r => if char_eqb c LF then [] else c :: first_line r
  end.


(** The longest prefix of [s] in the class [p], and what follows it. *)
Fixpoint take_while (p : char -> bool) (s : str) : str :=
  match s with
  | c :: r => if p c then c :: take_while p r else []
  | [] => []
  end.

Fixpoint drop_while (p : char -> bool) (s : str) : str :=
  match s with
  | c :: r => if p c then drop_while p r else s
  | [] => []
  end.

Definition not_LF (c : char) : bool := negb (char_eqb c LF).

(* ================================================================= *)
(** ** Exceptions *)

Inductive exn :=
  | FileNotFoundError
  | PermissionError
  | UnicodeDecodeError
  | UnicodeEncodeError
  | JSONDecodeError
  | ValueError
  | TypeError.

(** What running a piece of code gives: a value, or a raised exception. *)
Inductive outcome (A : Type) :=
  | Return (a : A)
  | Raise (e : exn).
Arguments Return {A} a.
Arguments Raise {A} e.

Definition bind {A B} (m : outcome A) (k : A -> outcome B) : outcome B :=
  match m with
  | Return a => k a
  | Raise e => Raise e
  end.

Notation "x <- m ;; k" := (bind m (fun x => k))
  (at level 61, m at next level, right associativity).
Notation "' p <- m ;; k" := (bind m (fun x => match x with p => k end))
  (at level 61, p pattern, m at next level, right associativity).

(** [int(s)] on a string of decimal digits (of any script).  An empty
    string or any other character is a [ValueError]; signs, blanks and
    underscores, which [int] also reads, never reach it here.  The optional
    limit of recent interpreters on the number of digits is not modelled:
    an [int] is unbounded. *)
Fixpoint int_digits (acc : Z) (s : str) : outcome Z :=
  match s with
  | [] => Return acc
  | c :: r =>
    match decimal_value c with
    | Some d => int_digits (acc * 10 + d)%Z r
    | None => Raise ValueError
    end
  end.

Definition py_int (s : str) : outcome Z :=
  match s with
  | [] => Raise ValueError
  | _ :: _ => int_digits 0%Z s
  end.

(* ================================================================= *)
(** ** Regular expressions: the fragment of [re] the reader uses

    A pattern is a sequence of items: a character class with a greedy
    repetition, possibly a capturing group, or an anchor.  Matching
    backtracks: a repetition first takes as many characters as it can and
    gives them back one by one while the rest of the pattern fails. *)

Inductive cclass :=
  | CChar (c : char)   (* a literal character *)
  | CDigit             (* \d *)
  | CSpace             (* \s *)
  | CDot.              (* .  : anything but a newline *)

Inductive rep := Once | Many0 (* * *) | Many1 (* + *).

Inductive item :=
  | Bos                                         (* ^ *)
  | Eos                                         (* $ *)
  | Atom (cl : cclass) (q : rep) (grp : bool).  (* grp: in parentheses *)

Definition accepts (cl : cclass) (c : char) : bool :=
  match cl with
  | CChar x => char_eqb c x
  | CDigit => is_decimal c
  | CSpace => is_space c
  | CDot => not_LF c
  end.

(** [$] without [re.MULTILINE]: the end of the string, or just before a
    newline that ends the string. *)
Definition at_eos (s : str) : bool :=
  match s with
  | [] => true
  | [c] => char_eqb c LF
  | _ => false
  end.

Section Greedy.
Variable R : Type.
Variable p : char -> bool.
Variable k : str -> str -> option R.

(** Take characters of the class while they last, then retreat: [k] is
    tried on the longest split first. *)
Fixpoint greedy (taken s : str) : option R :=
  match s with
  | c :: r =>
    if p c then
      match greedy (taken ++ [c]) r with
      | Some m => Some m
      | None => k taken s
      end
    else k taken s
  | [] => k taken s
  end.
End Greedy.

Definition record_group (grp : bool) (taken : str) (caps : list str) :=
  if grp then caps ++ [taken] else caps.

(** [run pat pos s caps]: match [pat] against the rest [s] of the subject,
    [pos] characters in; the result is the captured groups, in order. *)
Fixpoint run (pat : list item) (pos : nat) (s : str) (caps : list str)
  : option (list str) :=
  match pat with
  | [] => Some caps
  | Bos :: pat' => if Nat.eqb pos 0 then run pat' pos s caps else None
  | Eos :: pat' => if at_eos s then run pat' pos s caps else None
  | Atom cl Once grp :: pat' =>
    match s with
    | c :: r =>
      if accepts cl c then run pat' (S pos) r (record_group grp [c] caps)
      else None
    | [] => None
    end
  | Atom cl Many0 grp :: pat' =>
    greedy (accepts cl)
      (fun taken rest =>
         run pat' (pos + List.length taken) rest (record_group grp taken caps))
      [] s
  | Atom cl Many1 grp :: pat' =>
    match s with
    | c :: r =>
      if accepts cl c then
        greedy (accepts cl)
          (fun taken rest =>
             run pat' (pos + List.length taken) rest (record_group grp taken caps))
          [c] r
      else None
    | [] => None
    end
  end.

(** [pattern.match(s)]: the match starts at the beginning of [s]. *)
Definition re_match (pat : list item) (s : str) : option (list str) :=
  run pat 0 s [].

(** [m.group(n)] for [n >= 1]. *)
Definition group (n : nat) (m : list str) : str := nth (n - 1) m [].

(* ================================================================= *)
(** ** The novel parser *)

Record chapter := {
  ch_title : str;
  ch_content : str;
  ch_number : Z
}.

Record novel := {
  title : str;
  author : str;
  chapters : list chapter;
  content : str
}.

Definition default_title : str := Eval vm_compute in u "未知标题".
Definition author_label : str := Eval vm_compute in u "作者：".
Definition DI : char := Eval vm_compute in hd 0%N (u "第").
Definition ZHANG : char := Eval vm_compute in hd 0%N (u "章").

(** [re.compile(r'^第(\d+)章\s*(.+)$')] *)
Definition chapter_pattern : list item :=
  [ Bos;
    Atom (CChar DI) Once false;
    Atom CDigit Many1 true;
    Atom (CChar ZHANG) Once false;
    Atom CSpace Many0 false;
    Atom CDot Many1 true;
    Eos ].

(** The author loop over [lines[:10]]: the first line that starts with the
    label decides, and ends the loop. *)
Fixpoint find_author (lines : list str) : str :=
  match lines with
  | [] => []
  | line :: rest =>
    if startswith author_label line
    then strip (replace author_label [] line)
    else find_author rest
  end.

(** The loop state: [novel['chapters']] and [current_chapter]. *)
Definition scan_state := (list chapter * option chapter)%type.

Definition close_chapter (chs : list chapter) (cur : option chapter) :=
  match cur with
  | Some c => chs ++ [c]
  | None => chs
  end.

(** One turn of the chapter loop. *)
Definition scan_line (st : scan_state) (line : str) : outcome scan_state :=
  let '(chs, cur) := st in
  match re_match chapter_pattern (strip line) with
  | Some m =>
    let chs' := close_chapter chs cur in
    n <- py_int (group 1 m) ;;
    Return (chs', Some {| ch_title := strip line;
                          ch_content := [];
                          ch_number := n |})
  | None =>
    match cur with
    | Some c =>
      Return (chs, Some {| ch_title := ch_title c;
                           ch_content := ch_content c ++ line ++ [LF];
                           ch_number := ch_number c |})
    | None => Return st
    end
  end.

Fixpoint scan_lines (st : scan_state) (lines : list str) : outcome scan_state :=
  match lines with
  | [] => Return st
  | line :: rest => st' <- scan_line st line ;; scan_lines st' rest
  end.

(** [parse_novel_file] from the decoded text on (lines 271-306). *)
Definition parse_content (text : str) : outcome novel :=
  let lines := split LF text in
  let t := match lines with l :: _ => l | [] => default_title end in
  let a := find_author (firstn 10 lines) in
  '(chs, cur) <- scan_lines ([], None) lines ;;
  Return {| title := t;
            author := a;
            chapters := close_chapter chs cur;
            content := text |}.

Definition is_heading (line : str) : bool :=
  match re_match chapter_pattern (strip line) with
  | Some _ => true
  | None => false
  end.

(** What a line that is no heading does to the open chapter. *)
Definition append_line (cur : option chapter) (line : str) : option chapter :=
  match cur with
  | Some c => Some {| ch_title := ch_title c;
                      ch_content := ch_content c ++ line ++ [LF];
                      ch_number := ch_number c |}
  | None => None
  end.

(** The chapter list a text parses to. *)
Definition chapters_of (text : str) : outcome (list chapter) :=
  nv <- parse_content text ;; Return (chapters nv).

(** The author as the specification words it: the first line that begins
    with the label, without that leading label, trimmed. *)
Fixpoint author_by_prefix (lines : list str) : str :=
  match lines with
  | [] => []
  | line :: rest =>
    if startswith author_label line
    then strip (skipn (List.length author_label) line)
    else author_by_prefix rest
  end.

(* ================================================================= *)
(** ** Python values held by the stores *)

(** What [json.load] can return, and what the two stores keep in memory. *)
Inductive pyval :=
  | PyNone
  | PyBool (b : bool)
  | PyInt (n : Z)
  | PyFloat (x : PrimFloat.float)
  | PyStr (s : str)
  | PyList (l : list pyval)
  | PyDict (d : list (str * pyval)).

(** A [dict] with [str] keys, in insertion order. *)
Definition pydict (V : Type) := list (str * V).

(** [d.get(k)] *)
Fixpoint dict_get {V} (d : pydict V) (k : str) : option V :=
  match d with
  | [] => None
  | (k', v) :: r => if str_eqb k' k then Some v else dict_get r k
  end.

(** [d[k] = v]: a key already there keeps its place, a new one goes last. *)
Fixpoint dict_set {V} (d : pydict V) (k : str) (v : V) : pydict V :=
  match d with
  | [] => [(k, v)]
  | (k', v') :: r =>
    if str_eqb k' k then (k', v) :: r else (k', v') :: dict_set r k v
  end.

(** [o[k] = v] on whatever [o] is: only a [dict] takes a [str] subscript. *)
Definition setitem (o : pyval) (k : str) (v : pyval) : outcome pyval :=
  match o with
  | PyDict d => Return (PyDict (dict_set d k v))
  | _ => Raise TypeError
  end.

(* ================================================================= *)
(** ** The runtime and the disk *)

(** The parts of the Python runtime the reader calls and this file does not
    define: the gbk table, the [json] module and the line separator of the
    platform. *)
Class Runtime := {
  (** [bytes.decode('gbk')], [None] for a [UnicodeDecodeError] *)
  gbk_decode : list byte -> option str;
  (** [json.loads] *)
  json_loads : str -> outcome pyval;
  (** the chunks [json.dump(v, f, ensure_ascii=False, indent=2)] writes *)
  json_iterencode : pyval -> list str;
  (** [os.linesep] *)
  linesep : str
}.

(** The files the reader touches.  [fs_novel_dir] is [None] while the
    folder [novel] does not exist, and otherwise the names [glob("*.txt")]
    yields there, in its order. *)
Record filesystem := {
  fs_data : str -> option (list byte);
  fs_can_read : str -> bool;
  fs_can_write : str -> bool;
  fs_novel_dir : option (list str)
}.

Definition fs_put (fs : filesystem) (path : str) (bytes : list byte) :=
  {| fs_data := fun p => if str_eqb p path then Some bytes else fs_data fs p;
     fs_can_read := fs_can_read fs;
     fs_can_write := fs_can_write fs;
     fs_novel_dir := fs_novel_dir fs |}.

Definition fs_mkdir_novel (fs : filesystem) :=
  {| fs_data := fs_data fs;
     fs_can_read := fs_can_read fs;
     fs_can_write := fs_can_write fs;
     fs_novel_dir := Some [] |}.

(** Reading in text mode turns every [\r\n] and every lone [\r] into [\n]. *)
Fixpoint universal_newlines (s : str) : str :=
  match s with
  | [] => []
  | c :: r =>
    if char_eqb c CR then
      LF :: match r with
            | d :: r' =>
              if char_eqb d LF then universal_newlines r'
              else universal_newlines r
            | [] => []
            end
    else c :: universal_newlines r
  end.

(** Writing in text mode turns every [\n] into the line separator. *)
Definition to_linesep (sep : str) (s : str) : str :=
  flat_map (fun c => if char_eqb c LF then sep else [c]) s.

(** [with open(path, 'r', encoding=...) as f: f.read()] *)
Definition read_text (decode : list byte -> option str)
    (fs : filesystem) (path : str) : outcome str :=
  match fs_data fs path with
  | None => Raise FileNotFoundError
  | Some bytes =>
    if fs_can_read fs path then
      match decode bytes with
      | Some s => Return (universal_newlines s)
      | None => Raise UnicodeDecodeError
      end
    else Raise PermissionError
  end.

(** The [f.write(chunk)] calls of [json.dump]: the first chunk that cannot
    be encoded raises, and what was written before it stays in the file. *)
Fixpoint write_chunks (sep : str) (chunks : list str) (written : list byte)
  : list byte * outcome unit :=
  match chunks with
  | [] => (written, Return tt)
  | c :: cs =>
    match utf8_encode (to_linesep sep c) with
    | Some b => write_chunks sep cs (written ++ b)
    | None => (written, Raise UnicodeEncodeError)
    end
  end.


(** [with open(path, 'w', encoding='utf-8') as f: json.dump(v, f, ...)]:
    opening truncates the file. *)
Definition write_json `{Runtime} (fs : filesystem) (path : str) (v : pyval)
  : outcome unit * filesystem :=
  if fs_can_write fs path then
    let '(bytes, r) := write_chunks linesep (json_iterencode v) [] in
    (r, fs_put fs path bytes)
  else (Raise PermissionError, fs).

Definition settings_path : str := Eval vm_compute in u "settings.json".
Definition progress_path : str := Eval vm_compute in u "reading_progress.json".
Definition novel_path (name : str) : str :=
  Eval vm_compute in u "novel/" ++ name.

(* ================================================================= *)
(** ** The application *)

(** The fields of [NovelReaderApp] that hold data. *)
Record App := {
  novels : pydict novel;
  current_novel : option novel;
  current_chapter : Z;
  reading_progress : pyval;
  settings : pyval
}.

Definition world := (App * filesystem)%type.

(** A method: it may change the fields and the disk, and returns or raises. *)
Definition M (A : Type) := world -> outcome A * world.

Definition ret {A} (a : A) : M A := fun w => (Return a, w).

Definition mbind {A B} (m : M A) (k : A -> M B) : M B :=
  fun w =>
    match m w with
    | (Return a, w') => k a w'
    | (Raise e, w') => (Raise e, w')
    end.

Notation "x <~ m ;; k" := (mbind m (fun x => k))
  (at level 61, m at next level, right associativity).
Notation "m ;;; k" := (mbind m (fun _ => k))
  (at level 61, right associativity).

(** [try: m  except: h] when [catches] is everything, and
    [except SomeError] when it selects. *)
Definition try_except {A} (m : M A) (catches : exn -> bool) (h : M A) : M A :=
  fun w =>
    match m w with
    | (Return a, w') => (Return a, w')
    | (Raise e, w') => if catches e then h w' else (Raise e, w')
    end.

Definition any_exn (_ : exn) : bool := true.

Definition lift {A} (o : outcome A) : M A := fun w => (o, w).
Definition get_app : M App := fun w => (Return (fst w), w).
Definition get_fs : M filesystem := fun w => (Return (snd w), w).
Definition put_app (a : App) : M unit := fun w => (Return tt, (a, snd w)).
Definition put_fs (fs : filesystem) : M unit := fun w => (Return tt, (fst w, fs)).

Definition with_novels (a : App) (n : pydict novel) :=
  {| novels := n; current_novel := current_novel a;
     current_chapter := current_chapter a;
     reading_progress := reading_progress a; settings := settings a |}.
Definition with_current_novel (a : App) (n : option novel) :=
  {| novels := novels a; current_novel := n;
     current_chapter := current_chapter a;
     reading_progress := reading_progress a; settings := settings a |}.
Definition with_current_chapter (a : App) (i : Z) :=
  {| novels := novels a; current_novel := current_novel a;
     current_chapter := i;
     reading_progress := reading_progress a; settings := settings a |}.
Definition with_reading_progress (a : App) (p : pyval) :=
  {| novels := novels a; current_novel := current_novel a;
     current_chapter := current_chapter a;
     reading_progress := p; settings := settings a |}.

Section Methods.
Context {rt : Runtime}.

(** [json.load(f)] on the file at [path], opened as utf-8 text. *)
Definition read_json (path : str) : M pyval :=
  fs <~ get_fs ;;
  text <~ lift (read_text utf8_decode fs path) ;;
  lift (json_loads text).

Definition dump_json (path : str) (v : pyval) : M unit :=
  fun w =>
    let '(r, fs') := write_json (snd w) path v in (r, (fst w, fs')).

Definition load_settings : M pyval :=
  try_except (read_json settings_path) any_exn (ret (PyDict [])).

Definition save_settings : M unit :=
  a <~ get_app ;;
  try_except (dump_json settings_path (settings a)) any_exn (ret tt).

Definition load_reading_progress : M unit :=
  try_except
    (v <~ read_json progress_path ;;
     a <~ get_app ;;
     put_app (with_reading_progress a v))
    any_exn
    (a <~ get_app ;;
     put_app (with_reading_progress a (PyDict []))).

(** [now] is what [datetime.now().isoformat()] gives at the call. *)
Definition save_reading_progress (now : str) : M unit :=
  a <~ get_app ;;
  match current_novel a with
  | None => ret tt
  | Some nv =>
    let entry := PyDict [(u "chapter", PyInt (current_chapter a));
                         (u "timestamp", PyStr now)] in
    p <~ lift (setitem (reading_progress a) (title nv) entry) ;;
    put_app (with_reading_progress a p) ;;;
    try_except (dump_json progress_path p) any_exn (ret tt)
  end.

Definition len_chapters (nv : novel) : Z :=
  Z.of_nat (List.length (chapters nv)).

Definition load_chapter (chapter_index : Z) (now : str) : M unit :=
  a <~ get_app ;;
  match current_novel a with
  | None => ret tt
  | Some nv =>
    if (chapter_index <? 0)%Z || (chapter_index >=? len_chapters nv)%Z
    then ret tt
    else
      put_app (with_current_chapter a chapter_index) ;;;
      save_reading_progress now
  end.

Definition prev_chapter (now : str) : M unit :=
  a <~ get_app ;;
  if (current_chapter a >? 0)%Z
  then load_chapter (current_chapter a - 1) now
  else ret tt.

Definition next_chapter (now : str) : M unit :=
  a <~ get_app ;;
  match current_novel a with
  | None => ret tt
  | Some nv =>
    if (current_chapter a <? len_chapters nv - 1)%Z
    then load_chapter (current_chapter a + 1) now
    else ret tt
  end.

(** The loop of [on_novel_select] over [self.novels.items()]. *)
Fixpoint find_title (t : str) (d : pydict novel) : option novel :=
  match d with
  | [] => None
  | (_, nv) :: r => if str_eqb (title nv) t then Some nv else find_title t r
  end.

Definition on_novel_select (t : str) (now : str) : M unit :=
  a <~ get_app ;;
  match find_title t (novels a) with
  | None => ret tt
  | Some nv =>
    put_app (with_current_chapter (with_current_novel a (Some nv)) 0) ;;;
    load_chapter 0 now
  end.

(** The two [open] attempts of [parse_novel_file]: [None] is its
    [return None]. *)
Definition read_content (fs : filesystem) (file_path : str)
  : outcome (option str) :=
  match read_text utf8_decode fs file_path with
  | Return text => Return (Some text)
  | Raise UnicodeDecodeError =>
    match read_text gbk_decode fs file_path with
    | Return text => Return (Some text)
    | Raise _ => Return None
    end
  | Raise e => Raise e
  end.

Definition parse_novel_file (fs : filesystem) (file_path : str)
  : outcome (option novel) :=
  c <- read_content fs file_path ;;
  match c with
  | None => Return None
  | Some text => nv <- parse_content text ;; Return (Some nv)
  end.

(** The body of the loop of [load_novels] for one file, its [try] and
    [except Exception] included. *)
Definition load_one (name : str) : M unit :=
  try_except
    (fs <~ get_fs ;;
     r <~ lift (parse_novel_file fs (novel_path name)) ;;
     match r with
     | Some nv =>
       a <~ get_app ;;
       put_app (with_novels a (dict_set (novels a) name nv))
     | None => ret tt
     end)
    any_exn
    (ret tt).

Fixpoint load_each (names : list str) : M unit :=
  match names with
  | [] => ret tt
  | name :: rest => load_one name ;;; load_each rest
  end.

(** Creating the folder is taken to succeed. *)
Definition load_novels : M unit :=
  a <~ get_app ;;
  put_app (with_novels a []) ;;;
  fs <~ get_fs ;;
  match fs_novel_dir fs with
  | None => put_fs (fs_mkdir_novel fs)
  | Some names => load_each names
  end.

End Methods.

(* ================================================================= *)
(** ** The stores and the scan in the specification's words *)

(** The states of a persisted document, in the specification's words. *)
Inductive document :=
  | Missing                (* no such file *)
  | Unreadable             (* not to be opened, or bytes that are not utf-8 *)
  | Malformed              (* text that [json] rejects *)
  | Valid (v : pyval).     (* text that [json] reads as [v] *)

Definition stored_or_default (doc : document) : pyval :=
  match doc with
  | Valid v => v
  | _ => PyDict []
  end.

Section Readings.
Context {rt : Runtime}.

Definition document_state (fs : filesystem) (path : str) : document :=
  match fs_data fs path with
  | None => Missing
  | Some bytes =>
    if fs_can_read fs path then
      match utf8_decode bytes with
      | None => Unreadable
      | Some s =>
        match json_loads (universal_newlines s) with
        | Return v => Valid v
        | Raise _ => Malformed
        end
      end
    else Unreadable
  end.

(** The bytes [json.dump] leaves in the file, and whether it got through. *)
Definition dumped (v : pyval) : list byte * outcome unit :=
  write_chunks linesep (json_iterencode v) [].

(** The entry [save_reading_progress] builds. *)
Definition progress_entry (chapter_index : Z) (now : str) : pyval :=
  PyDict [(u "chapter", PyInt chapter_index); (u "timestamp", PyStr now)].

(** The decoding order in the specification's words: utf-8 first, gbk
    when that fails, no result when both fail. *)
Definition decode_then_parse (bytes : list byte) : outcome (option novel) :=
  match utf8_decode bytes with
  | Some s => nv <- parse_content (universal_newlines s) ;; Return (Some nv)
  | None =>
    match gbk_decode bytes with
    | Some s => nv <- parse_content (universal_newlines s) ;; Return (Some nv)
    | None => Return None
    end
  end.

(** The novel the scan keeps for a file name, if any. *)
Definition loaded (fs : filesystem) (name : str) : option novel :=
  match parse_novel_file fs (novel_path name) with
  | Return (Some nv) => Some nv
  | _ => None
  end.

(** The catalog after the turn of the scan loop for [name]. *)
Definition keep (fs : filesystem) (a : App) (name : str) : App :=
  match loaded fs name with
  | Some nv => with_novels a (dict_set (novels a) name nv)
  | None => a
  end.

(** The two navigation buttons, and a session of presses; after a handler
    raises, the event loop goes on with the next event. *)
Inductive nav := Prev | Next.

Definition press (c : nav) (now : str) : M unit :=
  match c with
  | Prev => prev_chapter now
  | Next => next_chapter now
  end.

Fixpoint presses (cs : list (nav * str)) (w : world) : world :=
  match cs with
  | [] => w
  | (c, now) :: rest => presses rest (snd (press c now w))
  end.

End Readings.


(* ================================================================= *)
(** ** More of the reader: the chapter view, the dropdown, closing *)

(** [s.endswith(suffix)] *)
Definition endswith (suffix s : str) : bool := startswith (rev suffix) (rev s).

(** The tags [load_chapter] gives to what it inserts in the text widget. *)
Inductive tag := TitleTag | DialogueTag.

Definition OPEN_BRACKET : str := Eval vm_compute in u "「".
Definition CLOSE_BRACKET : str := Eval vm_compute in u "」".

(** One turn of the paragraph loop of [load_chapter]: what it inserts. *)
Definition render_paragraph (paragraph : str) : list (str * option tag) :=
  match strip paragraph with
  | [] => []
  | _ :: _ =>
    if startswith OPEN_BRACKET (strip paragraph)
       && endswith CLOSE_BRACKET (strip paragraph)
    then [(paragraph ++ [LF; LF], Some DialogueTag)]
    else [(paragraph ++ [LF; LF], None)]
  end.

(** The paragraph loop over [content.split('\n')]. *)
Definition render_content (text : str) : list (str * option tag) :=
  flat_map render_paragraph (split LF text).




(** The number a heading line carries. *)
Definition heading_number (line : str) : Z :=
  match re_match chapter_pattern (strip line) with
  | Some m => match py_int (group 1 m) with Return n => n | Raise _ => 0%Z end
  | None => 0%Z
  end.

(** The text cut at its headings, read from the end: the lines gathered
    since the last heading, and the chapters after them. *)
Definition section_step (line : str) (acc : str * list chapter)
  : str * list chapter :=
  let '(body, chs) := acc in
  if is_heading line
  then ([], {| ch_title := strip line;
               ch_content := body;
               ch_number := heading_number line |} :: chs)
  else (line ++ [LF] ++ body, chs).

Definition sections (lines : list str) : str * list chapter :=
  fold_right section_step ([], []) lines.

Definition is_some {A} (o : option A) : bool :=
  match o with Some _ => true | None => false end.

Fixpoint distinct (names : list str) : bool :=
  match names with
  | [] => true
  | n :: r => negb (existsb (str_eqb n) r) && distinct r
  end.

Definition is_dict (v : pyval) : bool :=
  match v with PyDict _ => true | _ => false end.

Section MoreMethods.
Context {rt : Runtime}.

(** [current] is what [self.chapter_combo.current()] gives at the call. *)
Definition on_chapter_change (current : Z) (now : str) : M unit :=
  a <~ get_app ;;
  match current_novel a with
  | None => ret tt
  | Some _ =>
    if (current >=? 0)%Z then load_chapter current now else ret tt
  end.

(** [on_closing] up to its last call, [self.root.destroy()]. *)
Definition on_closing (now : str) : M unit :=
  save_settings ;;; save_reading_progress now.

(** What the user does, and a session of it; after a handler raises, the
    event loop goes on with the next event. *)
Inductive event :=
  | Select (t : str)        (* a novel of the list is clicked *)
  | PressPrev
  | PressNext
  | Choose (current : Z)    (* an entry of the chapter dropdown is chosen *)
  | Refresh.                (* the refresh button *)

Definition handle (e : event) (now : str) : M unit :=
  match e with
  | Select t => on_novel_select t now
  | PressPrev => prev_chapter now
  | PressNext => next_chapter now
  | Choose current => on_chapter_change current now
  | Refresh => load_novels
  end.

Fixpoint session (es : list (event * str)) (w : world) : world :=
  match es with
  | [] => w
  | (e, now) :: rest => session rest (snd (handle e now w))
  end.

(** The index is one of the selected novel's chapters, or 0 when there is
    none to show. *)
Definition index_ok (a : App) : bool :=
  match current_novel a with
  | None => (current_chapter a =? 0)%Z
  | Some nv =>
    ((0 <=? current_chapter a)%Z && (current_chapter a <? len_chapters nv)%Z)
    || ((len_chapters nv =? 0)%Z && (current_chapter a =? 0)%Z)
  end.

(** The catalog the scan builds from [names], starting from [cat]. *)
Definition catalog (fs : filesystem) (names : list str) (cat : pydict novel)
  : pydict novel :=
  fold_left (fun cat name =>
               match loaded fs name with
               | Some nv => dict_set cat name nv
               | None => cat
               end) names cat.

End MoreMethods.

(* ================================================================= *)
(** ** Sample data *)

Definition scenario_text : str :=
  Eval vm_compute in
    u "Title
作者：Alice
第1章 开端
Hello
第2章 转折
World
".

Definition scenario_chapter1 : chapter :=
  {| ch_title := u "第1章 开端";
     ch_content := u "Hello" ++ [LF];
     ch_number := 1 |}.

(** The chapters as the parser builds them: the empty piece [split] leaves
    after the last newline of the text is one more line of chapter 2. *)
Definition scenario_chapters : list chapter :=
  [ scenario_chapter1;
    {| ch_title := u "第2章 转折";
       ch_content := u "World" ++ [LF; LF];
       ch_number := 2 |} ].

(** The chapters as the scenario states them. *)
Definition scenario_chapters_stated : list chapter :=
  [ scenario_chapter1;
    {| ch_title := u "第2章 转折";
       ch_content := u "World" ++ [LF];
       ch_number := 2 |} ].

Definition author_twice_text : str :=
  Eval vm_compute in u "T
作者：A作者：B".


(** Bytes of a text in utf-8. *)
Definition utf8 (s : str) : list byte :=
  match utf8_encode s with
  | Some b => b
  | None => []
  end.

(** A few rows of the gbk table: 中, 文, 第 and 章; the rest is left out. *)
Definition sample_gbk_pair (x0 x1 : N) : option char :=
  if ((x0 =? 214) && (x1 =? 208))%N then Some 20013%N
  else if ((x0 =? 206) && (x1 =? 196))%N then Some 25991%N
  else if ((x0 =? 181) && (x1 =? 218))%N then Some 31532%N
  else if ((x0 =? 213) && (x1 =? 194))%N then Some 31456%N
  else None.

Fixpoint sample_gbk_decode (bs : list byte) : option str :=
  match bs with
  | [] => Some []
  | b0 :: r0 =>
    let x0 := Byte.to_N b0 in
    if (x0 <? 128)%N then consM x0 (sample_gbk_decode r0)
    else match r0 with
         | [] => None
         | b1 :: r1 =>
           match sample_gbk_pair x0 (Byte.to_N b1) with
           | Some c => consM c (sample_gbk_decode r1)
           | None => None
           end
         end
  end.

Fixpoint uint_chars (d : Decimal.uint) : str :=
  match d with
  | Decimal.Nil => []
  | Decimal.D0 r => 48%N :: uint_chars r
  | Decimal.D1 r => 49%N :: uint_chars r
  | Decimal.D2 r => 50%N :: uint_chars r
  | Decimal.D3 r => 51%N :: uint_chars r
  | Decimal.D4 r => 52%N :: uint_chars r
  | Decimal.D5 r => 53%N :: uint_chars r
  | Decimal.D6 r => 54%N :: uint_chars r
  | Decimal.D7 r => 55%N :: uint_chars r
  | Decimal.D8 r => 56%N :: uint_chars r
  | Decimal.D9 r => 57%N :: uint_chars r
  end.

Definition int_chars (z : Z) : str :=
  match z with
  | Z0 => [48%N]
  | Zpos p => uint_chars (Pos.to_uint p)
  | Zneg p => 45%N :: uint_chars (Pos.to_uint p)
  end.

Definition quoted (s : str) : str := 34%N :: s ++ [34%N].

(** A stand-in for [json.dumps] on the sample documents: one line, no
    escapes, no floats. *)
Fixpoint sample_dumps (v : pyval) : str :=
  match v with
  | PyNone => u "null"
  | PyBool true => u "true"
  | PyBool false => u "false"
  | PyInt n => int_chars n
  | PyFloat _ => u "NaN"
  | PyStr s => quoted s
  | PyList l =>
    91%N ::
    (fix items (l : list pyval) : str :=
       match l with
       | [] => []
       | x :: r =>
         sample_dumps x ++
         match r with [] => [] | _ :: _ => u ", " ++ items r end
       end) l ++ [93%N]
  | PyDict d =>
    123%N ::
    (fix members (d : list (str * pyval)) : str :=
       match d with
       | [] => []
       | (k, x) :: r =>
         quoted k ++ u ": " ++ sample_dumps x ++
         match r with [] => [] | _ :: _ => u ", " ++ members r end
       end) d ++ [125%N]
  end.

(** A text without heading: its second line lacks the title text. *)
Definition no_heading_text : str :=
  Eval vm_compute in u "前言
第1章
没有章节".

Definition sample_now : str := Eval vm_compute in u "2024-05-01T10:00:00".

(** The progress document of the scenario: an entry for the novel "X". *)
Definition sample_progress : pydict pyval :=
  [(u "X", PyDict [(u "chapter", PyInt 2);
                   (u "timestamp", PyStr (u "2024-04-30T21:15:00"))])].

(** A stand-in for [json.loads] that knows the sample document only. *)
Definition sample_loads (text : str) : outcome pyval :=
  if str_eqb text (sample_dumps (PyDict sample_progress))
  then Return (PyDict sample_progress)
  else Raise JSONDecodeError.

Definition sample_runtime : Runtime :=
  {| gbk_decode := sample_gbk_decode;
     json_loads := sample_loads;
     json_iterencode := fun v => [sample_dumps v];
     linesep := [LF] |}.

(** A folder with a utf-8 file, a gbk file and a file that is neither, and
    the progress document; there is no settings file. *)
Definition sample_files : pydict (list byte) :=
  [(progress_path, utf8 (sample_dumps (PyDict sample_progress)));
   (novel_path (u "a.txt"), utf8 scenario_text);
   (novel_path (u "b.txt"),
    [xd6; xd0; xce; xc4; x0a; xb5; xda; x31; xd5; xc2; x20; x61; x0a; x62]);
   (novel_path (u "c.txt"), [xff; xfe; x41])].

Definition sample_fs : filesystem :=
  {| fs_data := dict_get sample_files;
     fs_can_read := fun _ => true;
     fs_can_write := fun _ => true;
     fs_novel_dir := Some [u "a.txt"; u "c.txt"; u "b.txt"] |}.

Definition sample_novel : novel :=
  {| title := u "Title";
     author := u "Alice";
     chapters := scenario_chapters;
     content := scenario_text |}.

Definition sample_app : App :=
  {| novels := [];
     current_novel := Some sample_novel;
     current_chapter := 0;
     reading_progress := PyDict [];
     settings := PyDict [] |}.

(** Another file with the title of the sample novel, and a catalog that
    holds both. *)
Definition sample_twin : novel :=
  {| title := u "Title";
     author := u "Bob";
     chapters := [];
     content := u "Title" |}.

Definition sample_shelf : App :=
  {| novels := [(u "a.txt", sample_novel); (u "z.txt", sample_twin)];
     current_novel := None;
     current_chapter := 0;
     reading_progress := PyDict [];
     settings := PyDict [] |}.

Definition sample_session : list (event * str) :=
  [(Refresh, sample_now); (Select (u "Title"), sample_now);
   (PressNext, sample_now); (PressNext, sample_now);
   (Choose 7, sample_now); (PressPrev, sample_now)].

(** The note [create_portable_package] of [build_app.py] writes into an
    empty [novel] folder, as a [.txt] file: the format it suggests. *)
Definition hint_text : str :=
  Eval vm_compute in u "请将txt格式的小说文件放入此文件夹中

支持的文件格式：
- .txt文件

建议的文件格式：
小说标题
作者：作者名称
简介：
小说简介内容
===
第一章 章节标题
章节内容...".

(* ================================================================= *)
(** ** Facts about strings and the pattern *)

Lemma char_eqb_eq (a b : char) : char_eqb a b = true <-> a = b.
Proof. apply N.eqb_eq. Qed.

Lemma char_eqb_refl (a : char) : char_eqb a a = true.
Proof. apply N.eqb_refl. Qed.

Lemma str_eqb_eq (a b : str) : str_eqb a b = true <-> a = b.
Proof.
  revert b; induction a as [|x a IH]; intros [|y b]; simpl;
    try (split; [discriminate | congruence]); try tauto.
  rewrite andb_true_iff, char_eqb_eq, IH. split.
  - intros [-> ->]; reflexivity.
  - intros E; inversion E; auto.
Qed.

Lemma str_eqb_refl (a : str) : str_eqb a a = true.
Proof. apply str_eqb_eq; reflexivity. Qed.

Lemma str_eqb_neq (a b : str) : a <> b -> str_eqb a b = false.
Proof.
  intros H. destruct (str_eqb a b) eqn:E; [|reflexivity].
  apply str_eqb_eq in E. contradiction.
Qed.

Lemma split_not_nil sep s : split sep s <> [].
Proof.
  destruct s as [|c r]; simpl; [discriminate|].
  destruct (char_eqb c sep); [discriminate|].
  destruct (split sep r); discriminate.
Qed.

Lemma split_hd s : hd [] (split LF s) = first_line s.
Proof.
  induction s as [|c r IH]; simpl; [reflexivity|].
  destruct (char_eqb c LF); [reflexivity|].
  destruct (split LF r) as [|l ls] eqn:E.
  - exfalso. exact (split_not_nil _ _ E).
  - simpl in *. now rewrite IH.
Qed.

(** Splitting distributes over a newline between two texts. *)
Lemma split_app a b : split LF (a ++ LF :: b) = split LF a ++ split LF b.
Proof.
  induction a as [|c r IH]; simpl.
  - reflexivity.
  - destruct (char_eqb c LF); simpl.
    + now rewrite IH.
    + rewrite IH. destruct (split LF r) as [|l ls] eqn:E.
      * exfalso. exact (split_not_nil _ _ E).
      * reflexivity.
Qed.


Lemma lstrip_incl s c : In c (lstrip s) -> In c s.
Proof.
  induction s as [|x r IH]; simpl; [tauto|].
  destruct (is_space x); simpl; tauto.
Qed.

Lemma strip_incl s c : In c (strip s) -> In c s.
Proof.
  unfold strip, rstrip. intros H.
  apply in_rev, lstrip_incl, in_rev in H. now apply lstrip_incl.
Qed.

(** *** The utf-8 codec *)









(** *** The pattern *)

Section GreedyFacts.
Variable R : Type.
Variable p : char -> bool.
Variable k : str -> str -> option R.

(** When the rest of the pattern cannot start on a character of the
    class, nothing is given back: the whole run is taken. *)
Lemma greedy_cut :
  (forall t c r, p c = true -> k t (c :: r) = None) ->
  forall s taken,
    greedy p k taken s = k (taken ++ take_while p s) (drop_while p s).
Proof.
  intros Hk. induction s as [|c r IH]; intros taken; simpl.
  - now rewrite app_nil_r.
  - destruct (p c) eqn:Ep.
    + rewrite IH, <- app_assoc. simpl.
      destruct (k (taken ++ c :: take_while p r) (drop_while p r)) eqn:E;
        [reflexivity|].
      now rewrite Hk.
    + now rewrite app_nil_r.
Qed.

(** A match was reached on some split of the subject inside the run. *)
Lemma greedy_inv s taken m :
  greedy p k taken s = Some m ->
  exists a b, s = a ++ b /\ forallb p a = true /\ k (taken ++ a) b = Some m.
Proof.
  revert taken. induction s as [|c r IH]; intros taken; simpl.
  - intros H. exists [], []. rewrite !app_nil_r. auto.
  - destruct (p c) eqn:Ep.
    + destruct (greedy p k (taken ++ [c]) r) eqn:E.
      * intros H; inversion H; subst.
        destruct (IH _ E) as (a & b & -> & Ha & Hm).
        exists (c :: a), b. simpl. rewrite Ep, Ha.
        rewrite <- app_assoc in Hm. auto.
      * intros H. exists [], (c :: r). rewrite !app_nil_r. auto.
    + intros H. exists [], (c :: r). rewrite !app_nil_r. auto.
Qed.

(** If the rest of the pattern matches with nothing taken, the
    repetition matches too (possibly taking more). *)
Lemma greedy_some s taken m :
  k taken s = Some m -> exists m', greedy p k taken s = Some m'.
Proof.
  intros H. destruct s as [|c r]; simpl.
  - eauto.
  - destruct (p c); [|eauto].
    destruct (greedy p k (taken ++ [c]) r); eauto.
Qed.
End GreedyFacts.

Lemma take_while_all p s : forallb p s = true -> take_while p s = s.
Proof.
  induction s as [|c r IH]; simpl; [reflexivity|].
  destruct (p c); simpl; [|discriminate]. intros H. now rewrite IH.
Qed.

Lemma drop_while_all p s : forallb p s = true -> drop_while p s = [].
Proof.
  induction s as [|c r IH]; simpl; [reflexivity|].
  destruct (p c); simpl; [|discriminate]. exact IH.
Qed.

Lemma take_while_app_stop p a c b :
  forallb p a = true -> p c = false -> take_while p (a ++ c :: b) = a.
Proof.
  intros Ha Hc. induction a as [|x a IH]; simpl in *.
  - now rewrite Hc.
  - destruct (p x); [|discriminate]. now rewrite IH.
Qed.

Lemma drop_while_app_stop p a c b :
  forallb p a = true -> p c = false -> drop_while p (a ++ c :: b) = c :: b.
Proof.
  intros Ha Hc. induction a as [|x a IH]; simpl in *.
  - now rewrite Hc.
  - destruct (p x); [|discriminate]. now rewrite IH.
Qed.

(** Matching only adds captured groups after those already there. *)
Lemma run_extends pat : forall pos s caps m,
  run pat pos s caps = Some m -> exists extra, m = caps ++ extra.
Proof.
  induction pat as [|it pat IH]; intros pos s caps m; simpl.
  - intros H; inversion H. exists []. now rewrite app_nil_r.
  - assert (Hrec : forall grp taken pos' rest,
      run pat pos' rest (record_group grp taken caps) = Some m ->
      exists extra, m = caps ++ extra).
    { intros grp taken pos' rest H. apply IH in H. destruct H as [ex ->].
      unfold record_group. destruct grp.
      - rewrite <- app_assoc. eauto.
      - eauto. }
    destruct it as [| |cl q grp].
    + destruct (Nat.eqb pos 0); [apply IH | discriminate].
    + destruct (at_eos s); [apply IH | discriminate].
    + destruct q.
      * destruct s as [|c r]; [discriminate|].
        destruct (accepts cl c); [|discriminate]. apply Hrec.
      * intros H. apply greedy_inv in H. destruct H as (a & b & _ & _ & H).
        eapply Hrec; eauto.
      * destruct s as [|c r]; [discriminate|].
        destruct (accepts cl c); [|discriminate].
        intros H. apply greedy_inv in H. destruct H as (a & b & _ & _ & H).
        eapply Hrec; eauto.
Qed.

Lemma DI_value : DI = 31532%N.
Proof. reflexivity. Qed.

Lemma ZHANG_value : ZHANG = 31456%N.
Proof. reflexivity. Qed.

Lemma ZHANG_not_decimal : is_decimal ZHANG = false.
Proof. reflexivity. Qed.

Lemma decimal_not_ZHANG c : is_decimal c = true -> char_eqb c ZHANG = false.
Proof.
  intros H. destruct (char_eqb c ZHANG) eqn:E; [|reflexivity].
  apply char_eqb_eq in E. subst. discriminate.
Qed.

(** The tail [.+$] of the pattern on a non-empty text without newline. *)
Lemma dot_plus_eos text pos caps :
  text <> [] -> forallb not_LF text = true ->
  run [Atom CDot Many1 true; Eos] pos text caps = Some (caps ++ [text]).
Proof.
  intros Hne Hnl. destruct text as [|c r]; [congruence|].
  simpl in Hnl. apply andb_true_iff in Hnl. destruct Hnl as [Hc Hr].
  cbn [run]. change (accepts CDot c) with (not_LF c). rewrite Hc.
  rewrite greedy_cut.
  - rewrite take_while_all, drop_while_all by exact Hr. reflexivity.
  - intros t x r' Hx. change (not_LF x = true) in Hx. unfold not_LF in Hx.
    assert (E : at_eos (x :: r') = false).
    { simpl. destruct r'; [|reflexivity].
      destruct (char_eqb x LF); [discriminate | reflexivity]. }
    cbn [run]. now rewrite E.
Qed.

Lemma dot_plus_eos_inv s pos caps m :
  run [Atom CDot Many1 true; Eos] pos s caps = Some m ->
  exists g, m = caps ++ [g].
Proof.
  cbn [run]. destruct s as [|c r]; [discriminate|].
  destruct (accepts CDot c); [|discriminate].
  intros H. apply greedy_inv in H. destruct H as (a & b & _ & _ & H).
  cbn [run record_group] in H.
  destruct (at_eos b); [|discriminate]. inversion H. eauto.
Qed.

(** The tail [\s*(.+)$] of the pattern on a non-empty text without newline:
    whatever the blanks keep, the rest is captured as one more group. *)
Lemma title_part_matches text pos caps :
  text <> [] -> forallb not_LF text = true ->
  exists g2,
    run [Atom CSpace Many0 false; Atom CDot Many1 true; Eos] pos text caps
    = Some (caps ++ [g2]).
Proof.
  intros Hne Hnl. cbn [run].
  match goal with
  | |- exists g2, greedy ?p ?k [] text = _ =>
    destruct (@greedy_some _ p k text [] (caps ++ [text])) as [m' Hm']
  end.
  { exact (@dot_plus_eos text (pos + List.length (@nil char)) caps Hne Hnl). }
  rewrite Hm'. apply greedy_inv in Hm'.
  destruct Hm' as (a & b & _ & _ & Hm').
  change (run [Atom CDot Many1 true; Eos] (pos + List.length ([] ++ a)) b caps
          = Some m') in Hm'.
  apply dot_plus_eos_inv in Hm'. destruct Hm' as [g ->]. eauto.
Qed.

Lemma title_part_empty pos caps :
  run [Atom CSpace Many0 false; Atom CDot Many1 true; Eos] pos [] caps = None.
Proof. reflexivity. Qed.

(** The head [^第(\d+)章] of the pattern: on a subject [第 ds 章 rest] with
    [ds] digits, the digits are all taken, and matching goes on at [rest]. *)
Lemma heading_head ds rest tail_pat :
  ds <> [] -> forallb is_decimal ds = true ->
  re_match (Bos :: Atom (CChar DI) Once false :: Atom CDigit Many1 true
            :: Atom (CChar ZHANG) Once false :: tail_pat)
           (DI :: ds ++ ZHANG :: rest)
  = run tail_pat (S (1 + List.length ds)) rest [ds].
Proof.
  intros Hds Hdec.
  destruct ds as [|d ds']; [congruence|].
  simpl in Hdec. apply andb_true_iff in Hdec. destruct Hdec as [Hd Hds'].
  unfold re_match. cbn [run Nat.eqb accepts]. rewrite char_eqb_refl.
  cbn [List.app]. change (accepts CDigit d) with (is_decimal d). rewrite Hd.
  rewrite greedy_cut.
  - rewrite take_while_app_stop, drop_while_app_stop
      by (exact Hds' || exact ZHANG_not_decimal).
    cbn [run accepts record_group List.app List.length]. rewrite char_eqb_refl.
    reflexivity.
  - intros t c r Hc. cbn [run accepts].
    now rewrite (decimal_not_ZHANG _ Hc).
Qed.

(** The pattern on a well-formed heading: it matches, and group 1 is the
    digits between the two marks. *)
Lemma chapter_match_heading ds text :
  ds <> [] -> forallb is_decimal ds = true ->
  text <> [] -> forallb not_LF text = true ->
  exists g2, re_match chapter_pattern (DI :: ds ++ ZHANG :: text)
             = Some [ds; g2].
Proof.
  intros Hds Hdec Htext Hnl. unfold chapter_pattern.
  rewrite heading_head by assumption.
  destruct (title_part_matches (S (1 + List.length ds)) [ds] Htext Hnl)
    as [g2 Hg]. exists g2. exact Hg.
Qed.


Lemma digits_group1 tail_pat s m :
  re_match (Bos :: Atom (CChar DI) Once false :: Atom CDigit Many1 true
            :: tail_pat) s = Some m ->
  group 1 m <> [] /\ forallb is_decimal (group 1 m) = true.
Proof.
  unfold re_match. cbn [run Nat.eqb].
  destruct s as [|c0 s1]; [discriminate|].
  destruct (accepts (CChar DI) c0); [|discriminate].
  destruct s1 as [|d r]; [discriminate|].
  destruct (accepts CDigit d) eqn:Hd; [|discriminate].
  intros H. apply greedy_inv in H. destruct H as (a & b & _ & Ha & H).
  apply run_extends in H. destruct H as [extra ->].
  cbn. split; [discriminate|].
  change (accepts CDigit d) with (is_decimal d) in Hd. rewrite Hd.
  exact Ha.
Qed.

(** In any match of the pattern, group 1 is a non-empty string of digits. *)
Lemma chapter_match_group1 s m :
  re_match chapter_pattern s = Some m ->
  group 1 m <> [] /\ forallb is_decimal (group 1 m) = true.
Proof. apply digits_group1. Qed.

Lemma int_digits_returns s : forall acc,
  forallb is_decimal s = true -> exists n, int_digits acc s = Return n.
Proof.
  induction s as [|c r IH]; intros acc; simpl.
  - eauto.
  - unfold is_decimal. destruct (decimal_value c); [|discriminate].
    simpl. apply IH.
Qed.

Lemma py_int_returns s :
  s <> [] -> forallb is_decimal s = true -> exists n, py_int s = Return n.
Proof.
  intros Hne Hd. destruct s; [congruence|]. now apply int_digits_returns.
Qed.

(** ** Facts about the chapter loop *)

Lemma scan_line_plain chs cur line :
  is_heading line = false ->
  scan_line (chs, cur) line = Return (chs, append_line cur line).
Proof.
  unfold is_heading, scan_line.
  destruct (re_match chapter_pattern (strip line)); [discriminate|].
  intros _. destruct cur; reflexivity.
Qed.




Lemma scan_lines_app l1 l2 st :
  scan_lines st (l1 ++ l2) = st' <- scan_lines st l1 ;; scan_lines st' l2.
Proof.
  revert st. induction l1 as [|l ls IH]; intros st; simpl.
  - reflexivity.
  - destruct (scan_line st l); simpl; [apply IH | reflexivity].
Qed.

(** With no chapter open, lines that are no heading leave the state alone. *)
Lemma scan_lines_no_heading lines : forall chs,
  forallb (fun l => negb (is_heading l)) lines = true ->
  scan_lines (chs, None) lines = Return (chs, None).
Proof.
  induction lines as [|l ls IH]; intros chs; cbn [scan_lines forallb].
  - reflexivity.
  - intros H. apply andb_true_iff in H. destruct H as [Hl Hls].
    apply negb_true_iff in Hl.
    rewrite (scan_line_plain _ _ _ Hl). cbn [bind append_line]. now apply IH.
Qed.

(* ================================================================= *)
(** ** The parser: the scenario, the title, the author and the headings *)

(** C1, as amended: parsing the scenario text gives title "Title", author
    "Alice" and two chapters in order, number 1 titled "第1章 开端" with
    content "Hello\n" and number 2 titled "第2章 转折" with content
    "World\n\n" (the text ends in a newline, so its last, empty line is
    appended to the open chapter too). *)
Theorem scenario_parse :
  parse_content scenario_text
  = Return {| title := u "Title";
              author := u "Alice";
              chapters := scenario_chapters;
              content := scenario_text |}.
Proof. vm_compute. reflexivity. Qed.

(** C1 as stated fails: the second chapter's content is not "World\n". *)
Lemma scenario_parse_not_as_stated :
  ~ exists nv, parse_content scenario_text = Return nv
               /\ title nv = u "Title" /\ author nv = u "Alice"
               /\ chapters nv = scenario_chapters_stated.
Proof.
  intros (nv & H & _ & _ & Hc). vm_compute in H.
  inversion H; subst nv. vm_compute in Hc. discriminate Hc.
Qed.








Lemma find_author_none lines :
  forallb (fun l => negb (startswith author_label l)) lines = true ->
  find_author lines = [].
Proof.
  induction lines as [|l ls IH]; cbn [forallb find_author]; [reflexivity|].
  intros H. apply andb_true_iff in H. destruct H as [Hl Hls].
  apply negb_true_iff in Hl. rewrite Hl. now apply IH.
Qed.

Lemma parse_content_author text nv :
  parse_content text = Return nv ->
  author nv = find_author (firstn 10 (split LF text)).
Proof.
  unfold parse_content.
  destruct (scan_lines ([], None) (split LF text)) as [[chs cur]|e];
    cbn [bind]; [|discriminate].
  intros H; inversion H; reflexivity.
Qed.

(** C2 at the failing input: on the text "T\n作者：A作者：B" the parser's
    author is "AB", because [replace] removes the label wherever it stands
    in the line, while removing the leading label only gives "A作者：B". *)
Theorem author_label_removed_everywhere :
  exists nv, parse_content author_twice_text = Return nv
             /\ author nv = u "AB"
             /\ author_by_prefix (firstn 10 (split LF author_twice_text))
                = u "A作者：B".
Proof.
  eexists. split; [vm_compute; reflexivity|].
  split; vm_compute; reflexivity.
Qed.

Lemma parse_content_title text nv :
  parse_content text = Return nv -> title nv = first_line text.
Proof.
  unfold parse_content.
  destruct (scan_lines ([], None) (split LF text)) as [[chs cur]|e];
    cbn [bind]; [|discriminate].
  intros H; inversion H; subst nv; cbn [title].
  rewrite <- split_hd. destruct (split LF text) as [|l ls] eqn:E.
  - exfalso. exact (split_not_nil _ _ E).
  - reflexivity.
Qed.

(** C3 at the failing input: for the empty text the title is the empty
    string, not the placeholder; [''.split('\n')] is [['']], never the empty
    list, so the branch that gives the placeholder is not reached. *)
Theorem empty_text_title :
  parse_content [] = Return {| title := []; author := [];
                               chapters := []; content := [] |}
  /\ split LF [] = [[]]
  /\ default_title <> [].
Proof.
  split; [reflexivity|]. split; [reflexivity | discriminate].
Qed.

Lemma chapters_of_scan text :
  chapters_of text
  = st <- scan_lines ([], None) (split LF text) ;;
    Return (close_chapter (fst st) (snd st)).
Proof.
  unfold chapters_of, parse_content.
  destruct (scan_lines ([], None) (split LF text)) as [[chs cur]|e];
    reflexivity.
Qed.

(** C4: a text none of whose lines, trimmed, matches the heading pattern
    parses to a novel without chapters; and put in front of any other text,
    on lines of their own, such lines change nothing in the chapters parsed
    from what follows: they are attached to no chapter. *)
Theorem no_heading_no_chapters text :
  forallb (fun l => negb (is_heading l)) (split LF text) = true ->
  (exists nv, parse_content text = Return nv /\ chapters nv = [])
  /\ forall rest, chapters_of (text ++ LF :: rest) = chapters_of rest.
Proof.
  intros H. pose proof (scan_lines_no_heading _ [] H) as Hs. split.
  - unfold parse_content. rewrite Hs. cbn [bind]. eauto.
  - intros rest. rewrite !chapters_of_scan, split_app, scan_lines_app, Hs.
    reflexivity.
Qed.

(** The same on a text whose only heading-like line lacks its title. *)
Lemma no_heading_no_chapters_witness :
  (exists nv, parse_content no_heading_text = Return nv /\ chapters nv = [])
  /\ forall rest,
       chapters_of (no_heading_text ++ LF :: rest) = chapters_of rest.
Proof.
  apply (@no_heading_no_chapters no_heading_text). vm_compute. reflexivity.
Defined.



(* ================================================================= *)
(** ** Dictionaries *)

Lemma dict_get_set_same V (d : pydict V) k v :
  dict_get (dict_set d k v) k = Some v.
Proof.
  induction d as [|[k' v'] r IH]; cbn [dict_set dict_get].
  - now rewrite str_eqb_refl.
  - destruct (str_eqb k' k) eqn:E; cbn [dict_get]; now rewrite E.
Qed.

Lemma dict_get_set_other V (d : pydict V) k v k' :
  k' <> k -> dict_get (dict_set d k v) k' = dict_get d k'.
Proof.
  intros Hne. induction d as [|[k0 v0] r IH]; cbn [dict_set dict_get].
  - rewrite str_eqb_neq; [reflexivity|]. congruence.
  - destruct (str_eqb k0 k) eqn:E; cbn [dict_get].
    + apply str_eqb_eq in E. subst k0.
      rewrite str_eqb_neq; [reflexivity|]. congruence.
    + now rewrite IH.
Qed.

(* ================================================================= *)
(** ** Navigation *)

Ltac run_method :=
  unfold mbind, try_except, ret, lift, get_app, get_fs, put_app, put_fs,
    dump_json, any_exn;
  cbn [fst snd].

Section NavigationFacts.
Context {rt : Runtime}.

(** Saving the progress leaves the selection and the index alone, also
    when it raises. *)
Lemma save_reading_progress_selection now w :
  let a' := fst (snd (save_reading_progress now w)) in
  current_chapter a' = current_chapter (fst w)
  /\ current_novel a' = current_novel (fst w).
Proof.
  destruct w as [a fs]. unfold save_reading_progress. run_method.
  destruct (current_novel a) as [nv|] eqn:En; cbn [fst snd]; [|auto].
  destruct (reading_progress a); cbn [setitem fst snd]; auto.
  destruct (write_json fs progress_path _) as [[[]|e] fs']; cbn; auto.
Qed.

(** [load_chapter] on an index in range sets it; on any other index it
    does nothing at all. *)
Lemma load_chapter_in_range i now a fs nv :
  current_novel a = Some nv ->
  (0 <= i < len_chapters nv)%Z ->
  let a' := fst (snd (load_chapter i now (a, fs))) in
  current_chapter a' = i /\ current_novel a' = Some nv.
Proof.
  intros Hn Hi. unfold load_chapter. run_method. rewrite Hn.
  replace ((i <? 0)%Z || (i >=? len_chapters nv)%Z) with false
    by (symmetry; apply orb_false_iff; split; lia).
  pose proof (save_reading_progress_selection now
                (with_current_chapter a i, fs)) as [H1 H2].
  cbn [fst snd with_current_chapter current_chapter current_novel] in H1, H2.
  cbn [fst snd]. rewrite H1, H2. auto.
Qed.

Lemma load_chapter_out_of_range i now a fs nv :
  current_novel a = Some nv ->
  (i < 0 \/ len_chapters nv <= i)%Z ->
  load_chapter i now (a, fs) = (Return tt, (a, fs)).
Proof.
  intros Hn Hi. unfold load_chapter. run_method. rewrite Hn.
  replace ((i <? 0)%Z || (i >=? len_chapters nv)%Z) with true
    by (symmetry; apply orb_true_iff; lia).
  reflexivity.
Qed.

Lemma prev_chapter_first now a fs :
  current_chapter a = 0%Z -> prev_chapter now (a, fs) = (Return tt, (a, fs)).
Proof.
  intros H. unfold prev_chapter. run_method. now rewrite H.
Qed.

Lemma next_chapter_last now a fs nv :
  current_novel a = Some nv ->
  current_chapter a = (len_chapters nv - 1)%Z ->
  next_chapter now (a, fs) = (Return tt, (a, fs)).
Proof.
  intros Hn H. unfold next_chapter. run_method. rewrite Hn, H.
  now rewrite Z.ltb_irrefl.
Qed.

Lemma prev_chapter_moves now a fs nv :
  current_novel a = Some nv ->
  (0 < current_chapter a < len_chapters nv)%Z ->
  let a' := fst (snd (prev_chapter now (a, fs))) in
  current_chapter a' = (current_chapter a - 1)%Z
  /\ current_novel a' = Some nv.
Proof.
  intros Hn Hi. unfold prev_chapter. run_method.
  replace (current_chapter a >? 0)%Z with true by (symmetry; lia).
  apply load_chapter_in_range; [assumption | lia].
Qed.

Lemma next_chapter_moves now a fs nv :
  current_novel a = Some nv ->
  (0 <= current_chapter a < len_chapters nv - 1)%Z ->
  let a' := fst (snd (next_chapter now (a, fs))) in
  current_chapter a' = (current_chapter a + 1)%Z
  /\ current_novel a' = Some nv.
Proof.
  intros Hn Hi. unfold next_chapter. run_method. rewrite Hn.
  replace (current_chapter a <? len_chapters nv - 1)%Z with true
    by (symmetry; lia).
  apply load_chapter_in_range; [assumption | lia].
Qed.

(** C5: with a novel of [n] chapters selected and the index [i] in
    [0, n-1], "previous" at 0 and "next" at [n-1] do nothing, anywhere else
    they move the index by exactly one, and after either the same novel is
    selected and the index is still in [0, n-1]. *)
Theorem navigation_clamped now a fs nv :
  current_novel a = Some nv ->
  (0 <= current_chapter a < len_chapters nv)%Z ->
  let i := current_chapter a in
  let n := len_chapters nv in
  let after_prev := fst (snd (prev_chapter now (a, fs))) in
  let after_next := fst (snd (next_chapter now (a, fs))) in
  (i = 0 -> prev_chapter now (a, fs) = (Return tt, (a, fs)))%Z
  /\ (i = n - 1 -> next_chapter now (a, fs) = (Return tt, (a, fs)))%Z
  /\ (0 < i -> current_chapter after_prev = i - 1)%Z
  /\ (i < n - 1 -> current_chapter after_next = i + 1)%Z
  /\ (0 <= current_chapter after_prev < n)%Z
  /\ (0 <= current_chapter after_next < n)%Z
  /\ current_novel after_prev = Some nv
  /\ current_novel after_next = Some nv.
Proof.
  intros Hn Hi i n after_prev after_next.
  assert (Hp : (current_chapter after_prev = if (0 <? i)%Z then i - 1 else i)%Z
               /\ current_novel after_prev = Some nv).
  { subst after_prev. destruct (0 <? i)%Z eqn:E.
    - apply prev_chapter_moves; [assumption | subst i; lia].
    - rewrite prev_chapter_first by (subst i; lia). auto. }
  assert (Hx : (current_chapter after_next
                = if (i <? n - 1)%Z then i + 1 else i)%Z
               /\ current_novel after_next = Some nv).
  { subst after_next. destruct (i <? n - 1)%Z eqn:E.
    - apply next_chapter_moves; [assumption | subst i n; lia].
    - rewrite (next_chapter_last now a fs Hn) by (subst i n; lia). auto. }
  destruct Hp as [Hp1 Hp2], Hx as [Hx1 Hx2].
  repeat split; try assumption.
  - intros E. apply prev_chapter_first. exact E.
  - intros E. now apply next_chapter_last with nv.
  - intros E. rewrite Hp1. now replace (0 <? i)%Z with true by (symmetry; lia).
  - intros E. rewrite Hx1.
    now replace (i <? n - 1)%Z with true by (symmetry; lia).
  - rewrite Hp1. destruct (0 <? i)%Z eqn:E; subst i; lia.
  - rewrite Hp1. destruct (0 <? i)%Z eqn:E; subst i n; lia.
  - rewrite Hx1. destruct (i <? n - 1)%Z eqn:E; subst i; lia.
  - rewrite Hx1. destruct (i <? n - 1)%Z eqn:E; subst i n; lia.
Qed.

Lemma press_in_range c now a fs nv :
  current_novel a = Some nv ->
  (0 <= current_chapter a < len_chapters nv)%Z ->
  let a' := fst (snd (press c now (a, fs))) in
  current_novel a' = Some nv
  /\ (0 <= current_chapter a' < len_chapters nv)%Z.
Proof.
  intros Hn Hi. destruct c; cbn [press].
  - destruct (Z.eq_dec (current_chapter a) 0) as [E|E].
    + rewrite prev_chapter_first by exact E. cbn [fst snd]. auto.
    + destruct (@prev_chapter_moves now a fs nv Hn) as [H1 H2]; [lia|].
      cbv zeta. rewrite H1, H2. split; [reflexivity | lia].
  - destruct (Z.eq_dec (current_chapter a) (len_chapters nv - 1)) as [E|E].
    + rewrite (@next_chapter_last now a fs nv Hn E). cbn [fst snd]. auto.
    + destruct (@next_chapter_moves now a fs nv Hn) as [H1 H2]; [lia|].
      cbv zeta. rewrite H1, H2. split; [reflexivity | lia].
Qed.

(** Through any session of presses the selection stays and the index
    stays in range. *)
Lemma presses_in_range cs : forall a fs nv,
  current_novel a = Some nv ->
  (0 <= current_chapter a < len_chapters nv)%Z ->
  let a' := fst (presses cs (a, fs)) in
  current_novel a' = Some nv
  /\ (0 <= current_chapter a' < len_chapters nv)%Z.
Proof.
  induction cs as [|[c now] rest IH]; intros a fs nv Hn Hi; cbn [presses].
  - cbn [fst]. auto.
  - destruct (@press_in_range c now a fs nv Hn Hi) as [H1 H2].
    destruct (press c now (a, fs)) as [r [a1 fs1]]. cbn [fst snd] in *.
    now apply IH.
Qed.

End NavigationFacts.

(** The same on the sample novel of two chapters, at index 0. *)
Lemma navigation_clamped_witness :
  current_chapter
    (fst (snd (next_chapter (rt := sample_runtime) sample_now
                 (sample_app, sample_fs)))) = 1%Z
  /\ prev_chapter (rt := sample_runtime) sample_now (sample_app, sample_fs)
     = (Return tt, (sample_app, sample_fs)).
Proof.
  assert (Hi : (0 <= current_chapter sample_app < len_chapters sample_novel)%Z)
    by (vm_compute; split; [discriminate | reflexivity]).
  pose proof (@navigation_clamped sample_runtime sample_now sample_app
                sample_fs sample_novel eq_refl Hi) as H.
  cbv zeta in H. destruct H as (Hp & _ & _ & Hx & _).
  split; [apply Hx | apply Hp]; reflexivity.
Defined.

(* ================================================================= *)
(** ** The stores *)

Section StoreFacts.
Context {rt : Runtime}.

Lemma read_json_outcome path a fs :
  exists r, read_json path (a, fs) = (r, (a, fs))
    /\ match document_state fs path with
       | Valid v => r = Return v
       | _ => exists e, r = Raise e
       end.
Proof.
  unfold read_json, document_state, read_text. run_method.
  destruct (fs_data fs path) as [bytes|]; [|eauto].
  destruct (fs_can_read fs path); [|eauto].
  destruct (utf8_decode bytes) as [s|]; [|eauto].
  destruct (json_loads (universal_newlines s)); eauto.
Qed.

Lemma load_settings_document a fs :
  load_settings (a, fs)
  = (Return (stored_or_default (document_state fs settings_path)), (a, fs)).
Proof.
  unfold load_settings, try_except.
  destruct (read_json_outcome settings_path a fs) as (r & -> & Hr).
  destruct (document_state fs settings_path) as [| | |v];
    [destruct Hr as [e ->] .. | subst r]; reflexivity.
Qed.

Lemma load_reading_progress_document a fs :
  load_reading_progress (a, fs)
  = (Return tt,
     (with_reading_progress a
        (stored_or_default (document_state fs progress_path)), fs)).
Proof.
  unfold load_reading_progress, try_except, mbind.
  destruct (read_json_outcome progress_path a fs) as (r & -> & Hr).
  destruct (document_state fs progress_path) as [| | |v];
    [destruct Hr as [e ->] .. | subst r]; reflexivity.
Qed.

(** C7: whatever the state of the persisted document, loading the
    settings and loading the progress return normally; the value is the
    stored one when the file was read, decoded and parsed, and the empty
    mapping in every other case; nothing else changes. *)
Theorem loads_never_raise a fs :
  load_settings (a, fs)
  = (Return (stored_or_default (document_state fs settings_path)), (a, fs))
  /\ load_reading_progress (a, fs)
     = (Return tt,
        (with_reading_progress a
           (stored_or_default (document_state fs progress_path)), fs)).
Proof.
  split; [apply load_settings_document | apply load_reading_progress_document].
Qed.

(** Saving the progress of the selected novel when the mapping in memory
    is a [dict]: the entry of the novel is set, and the whole mapping is
    dumped, as far as the write gets. *)
Lemma save_reading_progress_dict now a fs nv d :
  current_novel a = Some nv ->
  reading_progress a = PyDict d ->
  let d' := dict_set d (title nv) (progress_entry (current_chapter a) now) in
  save_reading_progress now (a, fs)
  = (Return tt,
     (with_reading_progress a (PyDict d'),
      if fs_can_write fs progress_path
      then fs_put fs progress_path (fst (dumped (PyDict d')))
      else fs)).
Proof.
  intros Hn Hp d'. unfold save_reading_progress. run_method.
  rewrite Hn, Hp. cbn [setitem fst snd]. fold (progress_entry (current_chapter a) now).
  fold d'. unfold write_json, dumped.
  destruct (fs_can_write fs progress_path); [|reflexivity].
  destruct (write_chunks linesep (json_iterencode (PyDict d')) [])
    as [bytes [[]|e]]; reflexivity.
Qed.


(** X19: the other side of the whole-mapping write: a save made before any
    load starts from the empty mapping, and the document it writes holds
    the entry of the selected novel only, whatever the file held before. *)
Lemma progress_save_without_load a fs nv now :
  reading_progress a = PyDict [] ->
  current_novel a = Some nv ->
  fs_can_write fs progress_path = true ->
  let only := PyDict [(title nv, progress_entry (current_chapter a) now)] in
  save_reading_progress now (a, fs)
  = (Return tt,
     (with_reading_progress a only,
      fs_put fs progress_path (fst (dumped only)))).
Proof.
  intros Hp Hn Hw only.
  rewrite (@save_reading_progress_dict now a fs nv [] Hn Hp), Hw.
  reflexivity.
Qed.


End StoreFacts.


(** The same on the sample state: the file held an entry for "X", the
    memory none, and the file written holds the entry of "Title" alone. *)
Lemma progress_save_without_load_witness :
  let only := PyDict [(title sample_novel,
                       progress_entry (current_chapter sample_app)
                         sample_now)] in
  save_reading_progress (rt := sample_runtime) sample_now
    (sample_app, sample_fs)
  = (Return tt,
     (with_reading_progress sample_app only,
      fs_put sample_fs progress_path
        (fst (dumped (rt := sample_runtime) only)))).
Proof.
  apply (@progress_save_without_load sample_runtime sample_app sample_fs
           sample_novel sample_now).
  - reflexivity.
  - reflexivity.
  - reflexivity.
Defined.


(* ================================================================= *)
(** ** The library scan *)

Section ScanFacts.
Context {rt : Runtime}.

Lemma parse_novel_file_decodes fs path bytes :
  fs_data fs path = Some bytes -> fs_can_read fs path = true ->
  parse_novel_file fs path = decode_then_parse bytes.
Proof.
  intros Hd Hr. unfold parse_novel_file, read_content, read_text,
    decode_then_parse.
  rewrite Hd, Hr.
  destruct (utf8_decode bytes) as [s|]; [reflexivity|].
  destruct (gbk_decode bytes) as [s|]; reflexivity.
Qed.

Lemma load_one_keep name a fs :
  load_one name (a, fs) = (Return tt, (keep fs a name, fs)).
Proof.
  unfold load_one, keep, loaded. run_method.
  destruct (parse_novel_file fs (novel_path name)) as [[nv|]|e];
    reflexivity.
Qed.

Lemma load_each_keep names : forall a fs,
  load_each names (a, fs) = (Return tt, (fold_left (keep fs) names a, fs)).
Proof.
  induction names as [|name rest IH]; intros a fs; cbn [load_each fold_left].
  - reflexivity.
  - unfold mbind. rewrite load_one_keep. apply IH.
Qed.

Lemma keep_lookup fs a name k :
  dict_get (novels (keep fs a name)) k
  = if str_eqb k name
    then match loaded fs name with
         | Some nv => Some nv
         | None => dict_get (novels a) k
         end
    else dict_get (novels a) k.
Proof.
  unfold keep. destruct (str_eqb k name) eqn:E.
  - apply str_eqb_eq in E. subst k.
    destruct (loaded fs name); [|reflexivity].
    cbn [novels with_novels]. apply dict_get_set_same.
  - destruct (loaded fs name); [|reflexivity].
    cbn [novels with_novels]. apply dict_get_set_other.
    intros ->. now rewrite str_eqb_refl in E.
Qed.

Lemma fold_keep_lookup fs names : forall a k,
  dict_get (novels (fold_left (keep fs) names a)) k
  = match (if existsb (str_eqb k) names then loaded fs k else None) with
    | Some nv => Some nv
    | None => dict_get (novels a) k
    end.
Proof.
  induction names as [|name rest IH]; intros a k; cbn [fold_left existsb].
  - reflexivity.
  - rewrite IH, keep_lookup.
    destruct (str_eqb k name) eqn:E; cbn [orb].
    + apply str_eqb_eq in E. subst name.
      destruct (existsb (str_eqb k) rest); destruct (loaded fs k);
        reflexivity.
    + reflexivity.
Qed.

(** C9: a file is decoded as utf-8 first and as gbk when that fails; when
    both fail the parse gives no result; and the scan returns normally
    with, for every name, the novel of that file if its parse gave one and
    nothing otherwise: a file that fails is left out and the files after
    it are still loaded. *)
Theorem scan_skips_undecodable a fs names :
  fs_novel_dir fs = Some names ->
  (forall name bytes,
      fs_data fs (novel_path name) = Some bytes ->
      fs_can_read fs (novel_path name) = true ->
      parse_novel_file fs (novel_path name) = decode_then_parse bytes
      /\ (utf8_decode bytes = None -> gbk_decode bytes = None ->
          parse_novel_file fs (novel_path name) = Return None
          /\ loaded fs name = None))
  /\ exists a',
      load_novels (a, fs) = (Return tt, (a', fs))
      /\ forall name,
          dict_get (novels a') name
          = if existsb (str_eqb name) names then loaded fs name else None.
Proof.
  intros Hdir. split.
  - intros name bytes Hd Hr.
    pose proof (parse_novel_file_decodes fs _ Hd Hr) as Hp.
    split; [exact Hp|]. intros H8 Hg.
    unfold loaded. rewrite Hp. unfold decode_then_parse.
    rewrite H8, Hg. auto.
  - unfold load_novels. run_method. rewrite Hdir, load_each_keep.
    eexists. split; [reflexivity|].
    intros name. rewrite fold_keep_lookup. cbn [novels with_novels dict_get].
    destruct (existsb (str_eqb name) names); [|reflexivity].
    destruct (loaded fs name); reflexivity.
Qed.

End ScanFacts.

(** The same on the sample folder. *)
Lemma scan_skips_undecodable_witness :
  exists a',
    load_novels (rt := sample_runtime) (sample_app, sample_fs)
    = (Return tt, (a', sample_fs))
    /\ forall name,
        dict_get (novels a') name
        = if existsb (str_eqb name) [u "a.txt"; u "c.txt"; u "b.txt"]
          then loaded (rt := sample_runtime) sample_fs name
          else None.
Proof.
  exact (proj2 (@scan_skips_undecodable sample_runtime sample_app sample_fs
                  [u "a.txt"; u "c.txt"; u "b.txt"] eq_refl)).
Defined.

(* ================================================================= *)
(** ** More about the parser *)

Lemma lstrip_idem s : lstrip (lstrip s) = lstrip s.
Proof.
  induction s as [|c r IH]; [reflexivity|]. cbn [lstrip].
  destruct (is_space c) eqn:E; [exact IH|]. cbn [lstrip]. now rewrite E.
Qed.

Lemma lstrip_length s : (List.length (lstrip s) <= List.length s)%nat.
Proof.
  induction s as [|c r IH]; cbn [lstrip List.length]; [lia|].
  destruct (is_space c); cbn [List.length]; lia.
Qed.

Lemma lstrip_snoc x c :
  is_space c = false -> lstrip (x ++ [c]) = lstrip x ++ [c].
Proof.
  intros Hc. induction x as [|y x IH]; cbn [List.app lstrip].
  - now rewrite Hc.
  - destruct (is_space y); [exact IH | reflexivity].
Qed.

Lemma lstrip_rstrip t : lstrip t = t -> lstrip (rstrip t) = rstrip t.
Proof.
  destruct t as [|c r]; [reflexivity|]. cbn [lstrip].
  destruct (is_space c) eqn:Hc.
  - intros H. pose proof (lstrip_length r) as Hl. rewrite H in Hl.
    cbn [List.length] in Hl. lia.
  - intros _. unfold rstrip. cbn [rev]. rewrite lstrip_snoc by exact Hc.
    rewrite rev_app_distr. cbn [rev List.app lstrip]. now rewrite Hc.
Qed.

Lemma rstrip_idem t : rstrip (rstrip t) = rstrip t.
Proof. unfold rstrip. now rewrite rev_involutive, lstrip_idem. Qed.

(** Trimming what is trimmed changes nothing. *)
Lemma strip_idem s : strip (strip s) = strip s.
Proof.
  unfold strip. rewrite lstrip_rstrip by apply lstrip_idem.
  apply rstrip_idem.
Qed.

Lemma heading_head_inv tail_pat s m :
  re_match (Bos :: Atom (CChar DI) Once false :: Atom CDigit Many1 true
            :: Atom (CChar ZHANG) Once false :: tail_pat) s = Some m ->
  exists ds rest pos caps,
    s = DI :: ds ++ ZHANG :: rest /\ ds <> []
    /\ forallb is_decimal ds = true
    /\ run tail_pat pos rest caps = Some m.
Proof.
  unfold re_match. cbn [run Nat.eqb].
  destruct s as [|c0 s1]; [discriminate|].
  destruct (accepts (CChar DI) c0) eqn:H0; [|discriminate].
  cbn [accepts] in H0. apply char_eqb_eq in H0. subst c0.
  destruct s1 as [|d r]; [discriminate|].
  destruct (accepts CDigit d) eqn:Hd; [|discriminate].
  change (accepts CDigit d) with (is_decimal d) in Hd.
  intros H. apply greedy_inv in H. destruct H as (a & b & -> & Ha & H).
  cbv beta in H. cbn [run] in H.
  destruct b as [|z b']; [discriminate|].
  destruct (accepts (CChar ZHANG) z) eqn:Hz; [|discriminate].
  cbn [accepts] in Hz. apply char_eqb_eq in Hz. subst z.
  exists (d :: a), b'. do 2 eexists. split; [reflexivity|].
  split; [discriminate|]. split; [|exact H].
  cbn [forallb]. rewrite Hd. exact Ha.
Qed.

Lemma scan_line_heading chs cur line :
  is_heading line = true ->
  scan_line (chs, cur) line
  = Return (close_chapter chs cur,
            Some {| ch_title := strip line;
                    ch_content := [];
                    ch_number := heading_number line |}).
Proof.
  unfold is_heading, scan_line, heading_number.
  destruct (re_match chapter_pattern (strip line)) as [m|] eqn:E;
    [|discriminate].
  intros _. destruct (chapter_match_group1 _ E) as [Hne Hd].
  destruct (py_int_returns Hne Hd) as [n ->]. reflexivity.
Qed.

Lemma sections_cons line rest :
  sections (line :: rest) = section_step line (sections rest).
Proof. reflexivity. Qed.

(** The chapter loop, with its open chapter, against the text cut from the
    end: the open chapter takes the lines up to the next heading. *)
Lemma scan_lines_sections lines : forall chs cur,
  exists st',
    scan_lines (chs, cur) lines = Return st'
    /\ close_chapter (fst st') (snd st')
       = chs
         ++ match cur with
            | Some c => [{| ch_title := ch_title c;
                            ch_content := ch_content c ++ fst (sections lines);
                            ch_number := ch_number c |}]
            | None => []
            end
         ++ snd (sections lines).
Proof.
  induction lines as [|line rest IH]; intros chs cur.
  - exists (chs, cur). split; [reflexivity|]. cbn.
    destruct cur as [[t c n]|]; cbn; now rewrite ?app_nil_r.
  - cbn [scan_lines]. rewrite sections_cons.
    destruct (sections rest) as [body more] eqn:Es. unfold section_step.
    destruct (is_heading line) eqn:Eh.
    + rewrite (scan_line_heading _ _ _ Eh). cbn [bind].
      destruct (IH (close_chapter chs cur)
                  (Some {| ch_title := strip line; ch_content := [];
                           ch_number := heading_number line |}))
        as (st' & Hs & Hc).
      exists st'. split; [exact Hs|]. rewrite Hc, ?Es. cbn [fst snd List.app
        ch_title ch_content ch_number].
      destruct cur as [[t c n]|]; cbn [close_chapter ch_title ch_content
        ch_number]; rewrite ?app_nil_r, <- ?app_assoc; reflexivity.
    + rewrite (scan_line_plain _ _ _ Eh). cbn [bind].
      destruct (IH chs (append_line cur line)) as (st' & Hs & Hc).
      exists st'. split; [exact Hs|]. rewrite Hc, ?Es. cbn [fst snd].
      destruct cur as [[t c n]|]; cbn [append_line ch_title ch_content
        ch_number]; rewrite <- ?app_assoc; reflexivity.
Qed.

Lemma parse_content_sections text nv :
  parse_content text = Return nv ->
  chapters nv = snd (sections (split LF text)).
Proof.
  unfold parse_content.
  destruct (scan_lines_sections (split LF text) [] None) as (st' & Hs & Hc).
  rewrite Hs. destruct st' as [chs cur]. cbn [bind fst snd] in *.
  intros H. inversion H. cbn [chapters]. exact Hc.
Qed.



Lemma decimal_in_nonneg zeros c d :
  decimal_in zeros c = Some d -> (0 <= d)%Z.
Proof.
  induction zeros as [|z zs IH]; cbn [decimal_in]; [discriminate|].
  destruct ((z <=? c)%N && (c <? z + 10)%N); [|exact IH].
  intros H. inversion H. lia.
Qed.

Lemma int_digits_nonneg s : forall acc n,
  (0 <= acc)%Z -> int_digits acc s = Return n -> (0 <= n)%Z.
Proof.
  induction s as [|c r IH]; intros acc n Hacc; cbn [int_digits].
  - intros H. inversion H. now subst.
  - destruct (decimal_value c) as [d|] eqn:Ed; [|discriminate].
    apply decimal_in_nonneg in Ed. apply IH. lia.
Qed.

Lemma heading_number_nonneg line : (0 <= heading_number line)%Z.
Proof.
  unfold heading_number.
  destruct (re_match chapter_pattern (strip line)) as [m|]; [|lia].
  destruct (py_int (group 1 m)) as [n|e] eqn:E; [|lia].
  unfold py_int in E. destruct (group 1 m); [discriminate|].
  eapply int_digits_nonneg; [|exact E]. lia.
Qed.

Lemma is_heading_strip line : is_heading (strip line) = is_heading line.
Proof. unfold is_heading. now rewrite strip_idem. Qed.

Lemma sections_invariants lines :
  (fst (sections lines) = [] \/ exists b, fst (sections lines) = b ++ [LF])
  /\ Forall (fun c =>
               is_heading (ch_title c) = true
               /\ (0 <= ch_number c)%Z
               /\ strip (ch_title c) = ch_title c
               /\ (ch_content c = []
                   \/ exists b, ch_content c = b ++ [LF]))
            (snd (sections lines)).
Proof.
  induction lines as [|line rest IH]; [split; [now left | constructor]|].
  rewrite sections_cons. destruct (sections rest) as [body more].
  cbn [fst snd] in IH. destruct IH as [Hb Hm].
  unfold section_step. destruct (is_heading line) eqn:Eh; cbn [fst snd].
  - split; [now left|]. constructor; [|exact Hm].
    cbn [ch_title ch_number ch_content].
    rewrite is_heading_strip, strip_idem.
    repeat split; auto using heading_number_nonneg.
  - split; [|exact Hm]. right. destruct Hb as [->|[b ->]].
    + exists line. reflexivity.
    + exists (line ++ [LF] ++ b). now rewrite <- !app_assoc.
Qed.

Lemma find_author_trimmed lines :
  strip (find_author lines) = find_author lines.
Proof.
  induction lines as [|l ls IH]; cbn [find_author]; [reflexivity|].
  destruct (startswith author_label l); [apply strip_idem | exact IH].
Qed.

(** X1: on a line without newline, the heading test holds exactly for the
    lines that read, once trimmed, 第, one or more decimal digits, 章 and at
    least one more character; no other line opens a chapter. *)
Theorem heading_lines_exactly line :
  forallb not_LF line = true ->
  is_heading line = true
  <-> exists ds text,
        strip line = DI :: ds ++ ZHANG :: text
        /\ ds <> [] /\ forallb is_decimal ds = true /\ text <> [].
Proof.
  intros Hnl. split.
  - unfold is_heading.
    destruct (re_match chapter_pattern (strip line)) as [m|] eqn:E;
      [|discriminate].
    intros _. unfold chapter_pattern in E. apply heading_head_inv in E.
    destruct E as (ds & rest & pos & caps & Hs & Hne & Hd & Hrun).
    exists ds, rest. repeat split; try assumption.
    intros ->. rewrite title_part_empty in Hrun. discriminate.
  - intros (ds & text & Hs & Hne & Hd & Ht). unfold is_heading.
    assert (Htext : forallb not_LF text = true).
    { apply forallb_forall. intros c Hc.
      rewrite forallb_forall in Hnl. apply Hnl, strip_incl.
      rewrite Hs. right. apply in_or_app. right. now right. }
    destruct (@chapter_match_heading ds text Hne Hd Ht Htext) as [g2 Hm].
    now rewrite Hs, Hm.
Qed.

(** The same on the line "第12章标题". *)
Lemma heading_lines_exactly_witness :
  is_heading (u "第12章标题") = true
  <-> exists ds text,
        strip (u "第12章标题") = DI :: ds ++ ZHANG :: text
        /\ ds <> [] /\ forallb is_decimal ds = true /\ text <> [].
Proof.
  apply (@heading_lines_exactly (u "第12章标题")). vm_compute. reflexivity.
Defined.



(** X4: in a parsed novel the author is trimmed, and every chapter has a
    trimmed title that is itself a heading, a number that is not negative,
    and a content that is empty or ends in a newline. *)
Theorem parsed_novel_invariants text nv c :
  parse_content text = Return nv ->
  In c (chapters nv) ->
  strip (author nv) = author nv
  /\ is_heading (ch_title c) = true
  /\ (0 <= ch_number c)%Z
  /\ strip (ch_title c) = ch_title c
  /\ (ch_content c = [] \/ exists b, ch_content c = b ++ [LF]).
Proof.
  intros Hnv Hc. split.
  - rewrite (parse_content_author _ Hnv). apply find_author_trimmed.
  - rewrite (parse_content_sections _ Hnv) in Hc.
    destruct (sections_invariants (split LF text)) as [_ HF].
    rewrite Forall_forall in HF. exact (HF c Hc).
Qed.

(** The same on the scenario text and its first chapter. *)
Lemma parsed_novel_invariants_witness :
  strip (author sample_novel) = author sample_novel
  /\ is_heading (ch_title scenario_chapter1) = true
  /\ (0 <= ch_number scenario_chapter1)%Z
  /\ strip (ch_title scenario_chapter1) = ch_title scenario_chapter1
  /\ (ch_content scenario_chapter1 = []
      \/ exists b, ch_content scenario_chapter1 = b ++ [LF]).
Proof.
  apply (@parsed_novel_invariants scenario_text sample_novel scenario_chapter1).
  - vm_compute. reflexivity.
  - left. reflexivity.
Defined.



(* ================================================================= *)
(** ** The chapter view *)






(** X6: a newline more at the end of a content changes nothing in what the
    chapter view shows. *)
Theorem render_ignores_final_newline text :
  render_content (text ++ [LF]) = render_content text.
Proof.
  unfold render_content. rewrite split_app, flat_map_app.
  cbn. apply app_nil_r.
Qed.



(* ================================================================= *)
(** ** Sessions, closing and the refresh *)

Section SessionFacts.
Context {rt : Runtime}.




Lemma save_reading_progress_cases now a fs :
  save_reading_progress now (a, fs)
  = match current_novel a with
    | None => (Return tt, (a, fs))
    | Some nv =>
      match reading_progress a with
      | PyDict d =>
        let d' := dict_set d (title nv)
                    (progress_entry (current_chapter a) now) in
        (Return tt,
         (with_reading_progress a (PyDict d'),
          if fs_can_write fs progress_path
          then fs_put fs progress_path (fst (dumped (PyDict d')))
          else fs))
      | _ => (Raise TypeError, (a, fs))
      end
    end.
Proof.
  destruct (current_novel a) as [nv|] eqn:En.
  - destruct (reading_progress a) eqn:Ep;
      try (unfold save_reading_progress; run_method; rewrite En, Ep;
           reflexivity).
    now apply save_reading_progress_dict.
  - unfold save_reading_progress. run_method. now rewrite En.
Qed.

Lemma load_chapter_cases i now a fs :
  load_chapter i now (a, fs)
  = match current_novel a with
    | None => (Return tt, (a, fs))
    | Some nv =>
      if (i <? 0)%Z || (i >=? len_chapters nv)%Z then (Return tt, (a, fs))
      else save_reading_progress now (with_current_chapter a i, fs)
    end.
Proof.
  unfold load_chapter. run_method. destruct (current_novel a); [|reflexivity].
  destruct ((i <? 0)%Z || (i >=? len_chapters n)%Z); reflexivity.
Qed.

Lemma save_reading_progress_novels now w :
  novels (fst (snd (save_reading_progress now w))) = novels (fst w).
Proof.
  destruct w as [a fs]. rewrite save_reading_progress_cases.
  destruct (current_novel a); [|reflexivity].
  destruct (reading_progress a); reflexivity.
Qed.

Lemma index_ok_ext a a' :
  current_novel a' = current_novel a ->
  current_chapter a' = current_chapter a ->
  index_ok a' = index_ok a.
Proof. unfold index_ok. now intros -> ->. Qed.

Lemma len_chapters_nonneg nv : (0 <= len_chapters nv)%Z.
Proof. unfold len_chapters. lia. Qed.

Lemma load_chapter_index_ok i now a fs :
  index_ok a = true ->
  index_ok (fst (snd (load_chapter i now (a, fs)))) = true.
Proof.
  intros Hok. rewrite load_chapter_cases.
  destruct (current_novel a) as [nv|] eqn:En; [|exact Hok].
  destruct ((i <? 0)%Z || (i >=? len_chapters nv)%Z) eqn:E; [exact Hok|].
  apply orb_false_iff in E. destruct E as [E1 E2].
  pose proof (save_reading_progress_selection now
                (with_current_chapter a i, fs)) as [H1 H2].
  cbn [fst snd with_current_chapter current_chapter current_novel] in H1, H2.
  unfold index_ok. rewrite H1, H2, En.
  apply orb_true_iff. left. apply andb_true_iff. split; lia.
Qed.

Lemma load_novels_result a fs :
  load_novels (a, fs)
  = (Return tt,
     match fs_novel_dir fs with
     | None => (with_novels a [], fs_mkdir_novel fs)
     | Some names => (with_novels a (catalog fs names []), fs)
     end).
Proof.
  unfold load_novels. run_method.
  destruct (fs_novel_dir fs) as [names|]; [|reflexivity].
  rewrite load_each_keep. do 2 f_equal.
  change (with_novels a (catalog fs names []))
    with (with_novels a (catalog fs names (novels (with_novels a [])))).
  generalize (@nil (str * novel)). revert a.
  induction names as [|name rest IH]; intros a n; cbn [fold_left catalog].
  - reflexivity.
  - unfold keep at 2. cbn [novels with_novels].
    destruct (loaded fs name) as [nv|].
    + change (with_novels (with_novels a n) (dict_set n name nv))
        with (with_novels a (dict_set n name nv)). apply IH.
    + apply IH.
Qed.

Lemma handle_index_ok e now a fs :
  index_ok a = true ->
  index_ok (fst (snd (handle e now (a, fs)))) = true.
Proof.
  intros Hok. destruct e as [t| | |j|]; cbn [handle].
  - unfold on_novel_select. run_method.
    destruct (find_title t (novels a)) as [nv|]; [|exact Hok].
    apply load_chapter_index_ok.
    unfold index_ok. cbn [current_novel current_chapter with_current_chapter
      with_current_novel].
    pose proof (len_chapters_nonneg nv).
    destruct (Z.eqb_spec (len_chapters nv) 0) as [->|Hn]; [reflexivity|].
    apply orb_true_iff. left. apply andb_true_iff. split; lia.
  - unfold prev_chapter. run_method.
    destruct (current_chapter a >? 0)%Z; [|exact Hok].
    now apply load_chapter_index_ok.
  - unfold next_chapter. run_method.
    destruct (current_novel a) as [nv|] eqn:En; [|exact Hok].
    destruct (current_chapter a <? len_chapters nv - 1)%Z; [|exact Hok].
    now apply load_chapter_index_ok.
  - unfold on_chapter_change. run_method.
    destruct (current_novel a) as [nv|] eqn:En; [|exact Hok].
    destruct (j >=? 0)%Z; [|exact Hok].
    now apply load_chapter_index_ok.
  - rewrite load_novels_result. rewrite <- Hok.
    destruct (fs_novel_dir fs); now apply index_ok_ext.
Qed.

(** X9: [load_chapter] on an index that is no chapter of the selected
    novel, or with no novel selected, returns at once: no field changes and
    nothing is written. *)
Theorem load_chapter_ignores_bad_index i now a fs :
  match current_novel a with
  | None => true
  | Some nv => (i <? 0)%Z || (len_chapters nv <=? i)%Z
  end = true ->
  load_chapter i now (a, fs) = (Return tt, (a, fs)).
Proof.
  intros H. rewrite load_chapter_cases.
  destruct (current_novel a) as [nv|]; [|reflexivity].
  replace (i >=? len_chapters nv)%Z with (len_chapters nv <=? i)%Z
    by (rewrite Z.geb_leb; reflexivity).
  now rewrite H.
Qed.

(** X10: through any session of clicks (a novel selected, previous, next,
    a chapter chosen in the dropdown, the list refreshed), whatever raises
    on the way, the index stays a chapter of the selected novel, or 0 when
    no novel is selected or the novel has no chapter. *)
Theorem session_index_ok es : forall a fs,
  index_ok a = true -> index_ok (fst (session es (a, fs))) = true.
Proof.
  induction es as [|[e now] rest IH]; intros a fs Hok; cbn [session].
  - exact Hok.
  - pose proof (handle_index_ok e now a fs Hok) as H.
    destruct (handle e now (a, fs)) as [r [a1 fs1]]. cbn [fst snd] in *.
    now apply IH.
Qed.

Lemma find_title_first t d1 f nv d2 :
  title nv = t ->
  forallb (fun e => negb (str_eqb (title (snd e)) t)) d1 = true ->
  find_title t (d1 ++ (f, nv) :: d2) = Some nv.
Proof.
  intros Ht. induction d1 as [|[f0 n0] d1 IH]; cbn [List.app find_title forallb snd].
  - intros _. now rewrite Ht, str_eqb_refl.
  - intros H. apply andb_true_iff in H. destruct H as [H0 H1].
    apply negb_true_iff in H0. rewrite H0. now apply IH.
Qed.

Lemma find_title_none t d :
  forallb (fun e => negb (str_eqb (title (snd e)) t)) d = true ->
  find_title t d = None.
Proof.
  induction d as [|[f0 n0] d IH]; cbn [find_title forallb snd]; [reflexivity|].
  intros H. apply andb_true_iff in H. destruct H as [H0 H1].
  apply negb_true_iff in H0. rewrite H0. now apply IH.
Qed.

(** X11: selecting by title takes the first novel of the catalog that has
    the title, whatever comes after it, and puts the index at 0; a later
    file with the same title is never the one selected. *)
Theorem select_takes_first_title d1 f nv d2 now a fs :
  novels a = d1 ++ (f, nv) :: d2 ->
  forallb (fun e => negb (str_eqb (title (snd e)) (title nv))) d1 = true ->
  let a' := fst (snd (on_novel_select (title nv) now (a, fs))) in
  current_novel a' = Some nv
  /\ current_chapter a' = 0%Z
  /\ novels a' = novels a.
Proof.
  intros Hn Hd1. unfold on_novel_select. run_method.
  rewrite Hn, (@find_title_first (title nv) d1 f nv d2 eq_refl Hd1).
  rewrite <- Hn. rewrite load_chapter_cases.
  cbn [current_novel with_current_chapter with_current_novel].
  destruct ((0 <? 0)%Z || (0 >=? len_chapters nv)%Z); [cbn; auto|].
  set (a1 := with_current_chapter
               (with_current_chapter (with_current_novel a (Some nv)) 0) 0).
  pose proof (save_reading_progress_selection now (a1, fs)) as [H1 H2].
  pose proof (save_reading_progress_novels now (a1, fs)) as H3.
  cbv zeta in H1. cbn [fst snd] in H1, H2, H3 |- *.
  rewrite H1, H2, H3. subst a1. cbn. auto.
Qed.

(** Selecting a title that no novel of the catalog has does nothing. *)
Theorem select_unknown_title t now a fs :
  forallb (fun e => negb (str_eqb (title (snd e)) t)) (novels a) = true ->
  on_novel_select t now (a, fs) = (Return tt, (a, fs)).
Proof.
  intros H. unfold on_novel_select. run_method.
  now rewrite (find_title_none _ _ H).
Qed.

Lemma save_settings_result a fs :
  save_settings (a, fs)
  = (Return tt,
     (a, if fs_can_write fs settings_path
         then fs_put fs settings_path (fst (dumped (settings a)))
         else fs)).
Proof.
  unfold save_settings. run_method. unfold write_json, dumped.
  destruct (fs_can_write fs settings_path); [|reflexivity].
  destruct (write_chunks linesep (json_iterencode (settings a)) [])
    as [bytes [[]|e]]; reflexivity.
Qed.

Lemma fs_put_other fs path bytes p :
  p <> path -> fs_data (fs_put fs path bytes) p = fs_data fs p.
Proof. intros H. cbn [fs_put fs_data]. now rewrite str_eqb_neq. Qed.

Lemma fs_put_same fs path bytes :
  fs_data (fs_put fs path bytes) path = Some bytes.
Proof. cbn [fs_put fs_data]. now rewrite str_eqb_refl. Qed.

(** X12: saving the settings never raises and changes no field; on disk
    only the settings file can change, and when that file cannot be opened
    for writing nothing changes at all. *)
Theorem save_settings_best_effort a fs :
  exists fs',
    save_settings (a, fs) = (Return tt, (a, fs'))
    /\ (forall p, p <> settings_path -> fs_data fs' p = fs_data fs p)
    /\ (fs_can_write fs settings_path = false -> fs' = fs).
Proof.
  rewrite save_settings_result. eexists. split; [reflexivity|].
  destruct (fs_can_write fs settings_path).
  - split; [|discriminate]. intros p Hp. now apply fs_put_other.
  - split; reflexivity.
Qed.

(** X13: saving the progress does nothing when no novel is selected; with
    a novel selected it raises [TypeError], changing nothing, when the
    progress in memory is not a mapping (a progress document that holds a
    list, a string or a number loads as such), and returns otherwise, also
    when the write fails. *)
Theorem save_progress_outcomes now a fs :
  (current_novel a = None ->
   save_reading_progress now (a, fs) = (Return tt, (a, fs)))
  /\ (current_novel a <> None -> is_dict (reading_progress a) = false ->
      save_reading_progress now (a, fs) = (Raise TypeError, (a, fs)))
  /\ (is_dict (reading_progress a) = true ->
      fst (save_reading_progress now (a, fs)) = Return tt).
Proof.
  rewrite save_reading_progress_cases.
  destruct (current_novel a) as [nv|].
  - split; [discriminate|].
    destruct (reading_progress a); cbn [is_dict]; split;
      solve [reflexivity | discriminate | intros; reflexivity].
  - split; [reflexivity|]. split; [congruence | reflexivity].
Qed.

(** X14: showing a chapter records it: with the progress in memory a
    mapping, [load_chapter] on an index in range sets the index, sets the
    entry of the novel's title to the new index and the time of the call,
    leaves every other entry as it is, and dumps the mapping if the file
    can be written. *)
Theorem chapter_change_records_progress i now a fs nv d :
  current_novel a = Some nv ->
  reading_progress a = PyDict d ->
  (0 <=? i)%Z && (i <? len_chapters nv)%Z = true ->
  let d' := dict_set d (title nv) (progress_entry i now) in
  load_chapter i now (a, fs)
  = (Return tt,
     (with_reading_progress (with_current_chapter a i) (PyDict d'),
      if fs_can_write fs progress_path
      then fs_put fs progress_path (fst (dumped (PyDict d')))
      else fs))
  /\ dict_get d' (title nv) = Some (progress_entry i now)
  /\ forall k, k <> title nv -> dict_get d' k = dict_get d k.
Proof.
  intros Hn Hp Hi d'. apply andb_true_iff in Hi. destruct Hi as [H0 H1].
  split; [|split; [apply dict_get_set_same
                  | intros k Hk; now apply dict_get_set_other]].
  rewrite load_chapter_cases, Hn.
  replace ((i <? 0)%Z || (i >=? len_chapters nv)%Z) with false
    by (symmetry; apply orb_false_iff; split; lia).
  rewrite save_reading_progress_cases.
  cbn [current_novel reading_progress current_chapter with_current_chapter].
  rewrite Hn, Hp. reflexivity.
Qed.

Lemma paths_differ : settings_path <> progress_path.
Proof. discriminate. Qed.

(** X15: closing with a novel selected and a mapping as progress, when both
    files can be written and both dumps get through: the settings file holds
    the dump of the settings, the progress file the dump of the mapping with
    the entry of the novel renewed, and no other file has changed. *)
Theorem on_closing_writes_both now a fs nv d sbytes pbytes :
  current_novel a = Some nv ->
  reading_progress a = PyDict d ->
  fs_can_write fs settings_path = true ->
  fs_can_write fs progress_path = true ->
  dumped (settings a) = (sbytes, Return tt) ->
  dumped (PyDict (dict_set d (title nv)
                    (progress_entry (current_chapter a) now)))
  = (pbytes, Return tt) ->
  exists a' fs',
    on_closing now (a, fs) = (Return tt, (a', fs'))
    /\ fs_data fs' settings_path = Some sbytes
    /\ fs_data fs' progress_path = Some pbytes
    /\ forall p, p <> settings_path -> p <> progress_path ->
                 fs_data fs' p = fs_data fs p.
Proof.
  intros Hn Hp Hws Hwp Hs Hd. unfold on_closing, mbind.
  rewrite save_settings_result, Hws, Hs. cbn [fst].
  rewrite save_reading_progress_cases, Hn, Hp. cbv zeta.
  cbn [fs_put fs_can_write]. rewrite Hwp, Hd. cbn [fst].
  do 2 eexists. split; [reflexivity|]. split.
  - rewrite fs_put_other by exact paths_differ. apply fs_put_same.
  - split; [apply fs_put_same|]. intros p H1 H2.
    now rewrite !fs_put_other.
Qed.

(** X16: closing goes through to the end unless a novel is selected while
    the progress in memory is not a mapping: then it raises [TypeError]
    before the window is destroyed. *)
Theorem on_closing_outcome now a fs :
  fst (on_closing now (a, fs))
  = if is_some (current_novel a) && negb (is_dict (reading_progress a))
    then Raise TypeError
    else Return tt.
Proof.
  unfold on_closing, mbind. rewrite save_settings_result.
  rewrite save_reading_progress_cases.
  destruct (current_novel a); [|reflexivity].
  destruct (reading_progress a); reflexivity.
Qed.


Lemma dict_set_new V (d : pydict V) k v :
  dict_get d k = None -> dict_set d k v = d ++ [(k, v)].
Proof.
  induction d as [|[k0 v0] r IH]; cbn [dict_get dict_set List.app];
    [reflexivity|].
  destruct (str_eqb k0 k); [discriminate|]. intros H. now rewrite IH.
Qed.

Lemma catalog_keys fs names : forall cat,
  distinct names = true ->
  forallb (fun n => negb (is_some (dict_get cat n))) names = true ->
  map fst (catalog fs names cat)
  = map fst cat ++ filter (fun n => is_some (loaded fs n)) names.
Proof.
  induction names as [|name rest IH]; intros cat Hd Hc;
    cbn [catalog fold_left filter].
  - now rewrite app_nil_r.
  - cbn [distinct forallb] in Hd, Hc.
    apply andb_true_iff in Hd. destruct Hd as [Hn Hd].
    apply andb_true_iff in Hc. destruct Hc as [Hc0 Hc].
    apply negb_true_iff in Hn.
    destruct (loaded fs name) as [nv|] eqn:El; cbn [is_some].
    + assert (Hg : dict_get cat name = None).
      { destruct (dict_get cat name); [discriminate | reflexivity]. }
      fold (catalog fs rest (dict_set cat name nv)).
      rewrite IH; [| exact Hd |].
      * rewrite (dict_set_new _ _ _ Hg), map_app, <- app_assoc. reflexivity.
      * apply forallb_forall. intros n Hin.
        rewrite forallb_forall in Hc. rewrite dict_get_set_other.
        -- now apply Hc.
        -- intros ->.
           assert (existsb (str_eqb name) rest = true) as Hx.
           { apply existsb_exists. exists name. split; [exact Hin|].
             apply str_eqb_refl. }
           congruence.
    + fold (catalog fs rest cat). now apply IH.
Qed.

(** X18: when the names the folder yields are all different, the keys of
    the catalog are the names whose file gave a novel, in the order of the
    scan. *)
Theorem catalog_keys_in_scan_order a fs names :
  fs_novel_dir fs = Some names ->
  distinct names = true ->
  map fst (novels (fst (snd (load_novels (a, fs)))))
  = filter (fun n => is_some (loaded fs n)) names.
Proof.
  intros Hdir Hd. rewrite load_novels_result, Hdir.
  cbn [fst snd novels with_novels]. rewrite catalog_keys; [reflexivity | exact Hd |].
  apply forallb_forall. intros n _. reflexivity.
Qed.

End SessionFacts.

(** The same from the sample catalog, on a session that refreshes, selects,
    and steps past both ends. *)
Lemma session_index_ok_witness :
  index_ok (fst (session (rt := sample_runtime) sample_session
                   (sample_shelf, sample_fs))) = true.
Proof.
  apply (@session_index_ok sample_runtime sample_session sample_shelf
           sample_fs).
  reflexivity.
Defined.

(** The same on the sample catalog, where two files have the title "Title". *)
Lemma select_takes_first_title_witness :
  let a' := fst (snd (on_novel_select (rt := sample_runtime) (u "Title")
                        sample_now (sample_shelf, sample_fs))) in
  current_novel a' = Some sample_novel
  /\ current_chapter a' = 0%Z
  /\ novels a' = novels sample_shelf.
Proof.
  apply (@select_takes_first_title sample_runtime [] (u "a.txt") sample_novel
           [(u "z.txt", sample_twin)] sample_now sample_shelf sample_fs).
  - reflexivity.
  - reflexivity.
Defined.

(** The same on the sample catalog and a title it does not hold. *)
Lemma select_unknown_title_witness :
  on_novel_select (rt := sample_runtime) (u "Other") sample_now
    (sample_shelf, sample_fs)
  = (Return tt, (sample_shelf, sample_fs)).
Proof.
  apply (@select_unknown_title sample_runtime (u "Other") sample_now
           sample_shelf sample_fs).
  vm_compute. reflexivity.
Defined.

(** The same on the sample novel, from its first chapter to its second. *)
Lemma chapter_change_records_progress_witness :
  let d' := dict_set [] (title sample_novel) (progress_entry 1 sample_now) in
  load_chapter (rt := sample_runtime) 1 sample_now (sample_app, sample_fs)
  = (Return tt,
     (with_reading_progress (with_current_chapter sample_app 1) (PyDict d'),
      if fs_can_write sample_fs progress_path
      then fs_put sample_fs progress_path
             (fst (dumped (rt := sample_runtime) (PyDict d')))
      else sample_fs))
  /\ dict_get d' (title sample_novel) = Some (progress_entry 1 sample_now)
  /\ forall k, k <> title sample_novel -> dict_get d' k = dict_get [] k.
Proof.
  apply (@chapter_change_records_progress sample_runtime 1 sample_now
           sample_app sample_fs sample_novel []).
  - reflexivity.
  - reflexivity.
  - vm_compute. reflexivity.
Defined.

(** The same on the sample state. *)
Lemma on_closing_writes_both_witness :
  exists a' fs',
    on_closing (rt := sample_runtime) sample_now (sample_app, sample_fs)
    = (Return tt, (a', fs'))
    /\ fs_data fs' settings_path = Some (utf8 (u "{}"))
    /\ fs_data fs' progress_path
       = Some (utf8 (sample_dumps
                       (PyDict [(u "Title", progress_entry 0 sample_now)])))
    /\ forall p, p <> settings_path -> p <> progress_path ->
                 fs_data fs' p = fs_data sample_fs p.
Proof.
  apply (@on_closing_writes_both sample_runtime sample_now sample_app
           sample_fs sample_novel []).
  - reflexivity.
  - reflexivity.
  - reflexivity.
  - reflexivity.
  - vm_compute. reflexivity.
  - vm_compute. reflexivity.
Defined.

(** The same on the sample folder. *)
Lemma catalog_keys_in_scan_order_witness :
  map fst (novels (fst (snd (load_novels (rt := sample_runtime)
                               (sample_app, sample_fs)))))
  = filter (fun n => is_some (loaded (rt := sample_runtime) sample_fs n))
           [u "a.txt"; u "c.txt"; u "b.txt"].
Proof.
  apply (@catalog_keys_in_scan_order sample_runtime sample_app sample_fs
           [u "a.txt"; u "c.txt"; u "b.txt"]).
  - reflexivity.
  - vm_compute. reflexivity.
Defined.

(** The same on the sample novel of two chapters and the index 2. *)
Lemma load_chapter_ignores_bad_index_witness :
  load_chapter (rt := sample_runtime) 2 sample_now (sample_app, sample_fs)
  = (Return tt, (sample_app, sample_fs)).
Proof.
  apply (@load_chapter_ignores_bad_index sample_runtime 2 sample_now
           sample_app sample_fs).
  vm_compute. reflexivity.
Defined.

(* ================================================================= *)
(** ** The definitions on small inputs *)

Example split_empty : split LF [] = [[]].
Proof. reflexivity. Qed.

Example split_trailing_newline :
  split LF (u "a" ++ [LF; LF] ++ u "b" ++ [LF]) = [u "a"; []; u "b"; []].
Proof. vm_compute. reflexivity. Qed.

Example strip_blanks :
  strip ([32; 9; 12288] ++ u "a b" ++ [32; 10])%N = u "a b".
Proof. vm_compute. reflexivity. Qed.

Example strip_only_blanks : strip [31; 32; 11]%N = [].
Proof. reflexivity. Qed.

Example replace_no_overlap : replace (u "aa") (u "x") (u "aaa") = u "xa".
Proof. vm_compute. reflexivity. Qed.

Example replace_all : replace (u "ab") (u "x") (u "abcabab") = u "xcxx".
Proof. vm_compute. reflexivity. Qed.

Example replace_empty_old : replace [] (u "-") (u "ab") = u "-a-b-".
Proof. vm_compute. reflexivity. Qed.

Example py_int_arabic_indic : py_int [1633; 1634]%N = Return 12%Z.
Proof. reflexivity. Qed.

Example py_int_fullwidth : py_int (u "０９") = Return 9%Z.
Proof. vm_compute. reflexivity. Qed.

Example py_int_not_digits : py_int (u "1a") = Raise ValueError.
Proof. vm_compute. reflexivity. Qed.

Example utf8_three_bytes : utf8_decode [xe4; xb8; xad] = Some [20013%N].
Proof. reflexivity. Qed.

Example utf8_four_bytes : utf8_decode [xf0; x9f; x98; x80] = Some [128512%N].
Proof. reflexivity. Qed.

Example utf8_overlong : utf8_decode [xc0; x80] = None.
Proof. reflexivity. Qed.

Example utf8_surrogate : utf8_decode [xed; xa0; x80] = None.
Proof. reflexivity. Qed.

Example utf8_too_large : utf8_decode [xf4; x90; x80; x80] = None.
Proof. reflexivity. Qed.

Example utf8_truncated : utf8_decode [xe4; xb8] = None.
Proof. reflexivity. Qed.

Example utf8_encode_surrogate : utf8_encode [55296%N] = None.
Proof. reflexivity. Qed.

Example universal_newlines_mixed :
  universal_newlines ([97; 13; 10; 98; 13; 99; 10; 13])%N
  = [97; 10; 98; 10; 99; 10; 10]%N.
Proof. reflexivity. Qed.

Example match_heading :
  re_match chapter_pattern (u "第1章 开端") = Some [u "1"; u "开端"].
Proof. vm_compute. reflexivity. Qed.

Example match_no_blank :
  re_match chapter_pattern (u "第１２章a") = Some [u "１２"; u "a"].
Proof. vm_compute. reflexivity. Qed.

Example match_ideographic_blank :
  re_match chapter_pattern (u "第12章　标题 ") = Some [u "12"; u "标题 "].
Proof. vm_compute. reflexivity. Qed.

(** The blanks give one character back to the title group. *)
Example match_backtracks :
  re_match chapter_pattern (u "第1章  ") = Some [u "1"; u " "].
Proof. vm_compute. reflexivity. Qed.

Example match_before_last_newline :
  re_match chapter_pattern (u "第1章 " ++ [LF]) = Some [u "1"; u " "].
Proof. vm_compute. reflexivity. Qed.

Example match_bare : re_match chapter_pattern (u "第1章") = None.
Proof. vm_compute. reflexivity. Qed.

Example match_no_digits : re_match chapter_pattern (u "第章 a") = None.
Proof. vm_compute. reflexivity. Qed.

Example match_not_at_start : re_match chapter_pattern (u "x第1章 a") = None.
Proof. vm_compute. reflexivity. Qed.

Example match_inner_newline :
  re_match chapter_pattern (u "第1章a" ++ [LF] ++ u "b") = None.
Proof. vm_compute. reflexivity. Qed.

(** A bare heading after a real one is content of the open chapter. *)
Example bare_heading_is_content :
  chapters_of (u "第1章a" ++ [LF] ++ u "第2章")
  = Return [{| ch_title := u "第1章a";
               ch_content := u "第2章" ++ [LF];
               ch_number := 1 |}].
Proof. vm_compute. reflexivity. Qed.

(** Chapters come in file order, whatever their numbers. *)
Example chapters_in_file_order :
  bind (chapters_of (u "第7章 x" ++ [LF] ++ u "第3章 y"))
       (fun chs => Return (map ch_number chs))
  = Return [7%Z; 3%Z].
Proof. vm_compute. reflexivity. Qed.

Example author_after_ten_lines :
  bind (parse_content (repeat LF 10 ++ u "作者：A"))
       (fun nv => Return (author nv))
  = Return [].
Proof. vm_compute. reflexivity. Qed.

Example author_trimmed :
  bind (parse_content (u "T" ++ [LF] ++ u "作者： 张 三 "))
       (fun nv => Return (author nv))
  = Return (u "张 三").
Proof. vm_compute. reflexivity. Qed.

(** The sample folder: the utf-8 file and the gbk file are loaded, the
    file that is neither is skipped, and the scan goes on after it. *)
Example sample_scan :
  let a' := fst (snd (load_novels (rt := sample_runtime)
                        (sample_app, sample_fs))) in
  dict_get (novels a') (u "a.txt") = Some sample_novel
  /\ dict_get (novels a') (u "c.txt") = None
  /\ option_map title (dict_get (novels a') (u "b.txt")) = Some (u "中文")
  /\ map fst (novels a') = [u "a.txt"; u "b.txt"].
Proof. vm_compute. repeat split; reflexivity. Qed.

Example sample_parse_undecodable :
  parse_novel_file (rt := sample_runtime) sample_fs (novel_path (u "c.txt"))
  = Return None.
Proof. vm_compute. reflexivity. Qed.

Example sample_parse_missing :
  parse_novel_file (rt := sample_runtime) sample_fs (novel_path (u "d.txt"))
  = Raise FileNotFoundError.
Proof. vm_compute. reflexivity. Qed.

(** No settings file: the settings load as the empty mapping. *)
Example sample_load_settings :
  load_settings (rt := sample_runtime) (sample_app, sample_fs)
  = (Return (PyDict []), (sample_app, sample_fs)).
Proof. vm_compute. reflexivity. Qed.

(** A progress mapping that is no [dict] makes the save raise, after the
    index has moved. *)
Example sample_progress_not_a_dict :
  let a := with_reading_progress sample_app (PyList []) in
  let r := next_chapter (rt := sample_runtime) sample_now (a, sample_fs) in
  fst r = Raise TypeError /\ current_chapter (fst (snd r)) = 1%Z.
Proof. vm_compute. split; reflexivity. Qed.

(** The packaging script's note is itself a file of the folder: the reader
    lists it as a novel, with the author of its example and no chapter, the
    heading of the example being numbered in Chinese numerals. *)
Example hint_file_parses_without_chapters :
  bind (parse_content hint_text)
       (fun nv => Return (title nv, author nv, chapters nv))
  = Return (u "请将txt格式的小说文件放入此文件夹中", u "作者名称", []).
Proof. vm_compute. reflexivity. Qed.

Example dialogue_paragraph :
  render_content (u " 「你好」" ++ [LF; LF] ++ u "他说。")
  = [(u " 「你好」" ++ [LF; LF], Some DialogueTag);
     (u "他说。" ++ [LF; LF], None)].
Proof. vm_compute. reflexivity. Qed.

Example sample_session_ends_on_first_chapter :
  let a := fst (session (rt := sample_runtime) sample_session
                  (sample_shelf, sample_fs)) in
  option_map author (current_novel a) = Some (u "Alice")
  /\ current_chapter a = 0%Z
  /\ map fst (novels a) = [u "a.txt"; u "b.txt"].
Proof. vm_compute. repeat split; reflexivity. Qed.
